(** * c-ares doubly-linked list (src/lib/ares__llist.c)

    A shallow embedding of the list and node objects of [ares__llist.c]
    and of every function of the file, statement by statement, over an
    explicit heap.

    - Pointers are optional addresses ([None] is the C [NULL]); list
      objects and node objects live in two typed stores.  Reading or
      writing through a null or unallocated pointer is undefined
      behaviour: the computation yields [None].
    - [ares_malloc] may fail; it hands out addresses that were never used
      before, so a pointer to a freed node stays dangling.
    - A destructor is the caller's function: a call is recorded in a trace
      and is assumed not to touch the lists.
    - [size_t] is 64 bits wide. *)

From Stdlib Require Import ZArith Lia.
From stdpp Require Import gmap list.

Local Open Scope Z_scope.
Set Warnings "-clear-no-such-hyp".

(** ** Data model *)

Abbreviation loc := positive.
Abbreviation ptr := (option positive).
Abbreviation NULL := (@None positive).

(** [struct ares__llist_node]: [data] is the caller's [void *], the other
    three fields point to nodes and to the owning list. *)
Record ares__llist_node := mk_node {
  n_data   : ptr;
  n_prev   : ptr;
  n_next   : ptr;
  n_parent : ptr
}.

(** [struct ares__llist]: [destruct] is a function pointer, [cnt] a
    [size_t] kept as an integer in [0, SIZE_MAX]. *)
Record ares__llist := mk_llist {
  l_head     : ptr;
  l_tail     : ptr;
  l_destruct : ptr;
  l_cnt      : Z
}.

(** [size_t] is taken to be 64 bits wide; [++] and [--] wrap around. *)
Definition SIZE_MAX : Z := 2 ^ 64 - 1.
Definition size_incr (z : Z) : Z := (z + 1) mod (SIZE_MAX + 1).
Definition size_decr (z : Z) : Z := (z - 1) mod (SIZE_MAX + 1).

(** The program state: the two typed stores, the allocator (the next
    unused address and the answers it will give to the coming requests,
    [true] for a block and [false] or no answer left for out of memory),
    and the trace of destructor calls made so far, oldest first, each
    recorded as the function called and its argument. *)
Record state := mk_state {
  nodes  : gmap loc ares__llist_node;
  lists  : gmap loc ares__llist;
  brk    : loc;
  oracle : list bool;
  calls  : list (loc * ptr)
}.

Definition set_nodes (f : gmap loc ares__llist_node -> gmap loc ares__llist_node)
    (st : state) : state :=
  mk_state (f (nodes st)) (lists st) (brk st) (oracle st) (calls st).

Definition set_lists (f : gmap loc ares__llist -> gmap loc ares__llist)
    (st : state) : state :=
  mk_state (nodes st) (f (lists st)) (brk st) (oracle st) (calls st).

(** Field assignments. *)
Definition set_data (x : ptr) (N : ares__llist_node) :=
  mk_node x (n_prev N) (n_next N) (n_parent N).
Definition set_prev (x : ptr) (N : ares__llist_node) :=
  mk_node (n_data N) x (n_next N) (n_parent N).
Definition set_next (x : ptr) (N : ares__llist_node) :=
  mk_node (n_data N) (n_prev N) x (n_parent N).
Definition set_parent (x : ptr) (N : ares__llist_node) :=
  mk_node (n_data N) (n_prev N) (n_next N) x.

Definition set_head (x : ptr) (L : ares__llist) :=
  mk_llist x (l_tail L) (l_destruct L) (l_cnt L).
Definition set_tail (x : ptr) (L : ares__llist) :=
  mk_llist (l_head L) x (l_destruct L) (l_cnt L).
Definition set_destruct (x : ptr) (L : ares__llist) :=
  mk_llist (l_head L) (l_tail L) x (l_cnt L).
Definition set_cnt (f : Z -> Z) (L : ares__llist) :=
  mk_llist (l_head L) (l_tail L) (l_destruct L) (f (l_cnt L)).

(** ** The monad of C statements

    A statement maps a state to its result and the next state, or to
    [None] when it has undefined behaviour. *)

Definition M (A : Type) : Type := state -> option (A * state).

Definition ret {A} (a : A) : M A := fun st => Some (a, st).

Definition bind {A B} (m : M A) (k : A -> M B) : M B :=
  fun st => match m st with
            | Some (a, st') => k a st'
            | None => None
            end.

Notation "'let*' x ':=' m 'in' k" := (bind m (fun x => k))
  (at level 10, x name, m at level 100, k at level 200).
Notation "m ';;' k" := (bind m (fun _ => k))
  (at level 100, k at level 200, right associativity).

(** [p->f] for a node pointer [p]. *)
Definition node_rd {A} (p : ptr) (f : ares__llist_node -> A) : M A :=
  fun st => match p with
            | Some a => match nodes st !! a with
                        | Some N => Some (f N, st)
                        | None => None
                        end
            | None => None
            end.

(** [p->f = x] for a node pointer [p]. *)
Definition node_wr (p : ptr) (upd : ares__llist_node -> ares__llist_node) : M unit :=
  fun st => match p with
            | Some a => match nodes st !! a with
                        | Some N => Some (tt, set_nodes <[a := upd N]> st)
                        | None => None
                        end
            | None => None
            end.

(** [p->f] and [p->f = x] for a list pointer [p]. *)
Definition list_rd {A} (p : ptr) (f : ares__llist -> A) : M A :=
  fun st => match p with
            | Some a => match lists st !! a with
                        | Some L => Some (f L, st)
                        | None => None
                        end
            | None => None
            end.

Definition list_wr (p : ptr) (upd : ares__llist -> ares__llist) : M unit :=
  fun st => match p with
            | Some a => match lists st !! a with
                        | Some L => Some (tt, set_lists <[a := upd L]> st)
                        | None => None
                        end
            | None => None
            end.

(** [ares_malloc]: the allocator answers from its oracle; a granted block
    is the next unused address. *)
Definition ares_malloc : M ptr :=
  fun st => match oracle st with
            | true :: o =>
                Some (Some (brk st),
                      mk_state (nodes st) (lists st) (Pos.succ (brk st)) o (calls st))
            | false :: o =>
                Some (None, mk_state (nodes st) (lists st) (brk st) o (calls st))
            | [] => Some (None, st)
            end.

(** [memset(p, 0, sizeof( *p))] on a freshly allocated block of each type. *)
Definition memset_node (p : ptr) : M unit :=
  fun st => match p with
            | Some a => Some (tt, set_nodes <[a := mk_node None None None None]> st)
            | None => None
            end.

Definition memset_list (p : ptr) : M unit :=
  fun st => match p with
            | Some a => Some (tt, set_lists <[a := mk_llist None None None 0]> st)
            | None => None
            end.

(** [ares_free] of a node and of a list. *)
Definition ares_free_node (p : ptr) : M unit :=
  fun st => match p with
            | Some a => match nodes st !! a with
                        | Some _ => Some (tt, set_nodes (delete a) st)
                        | None => None
                        end
            | None => Some (tt, st)
            end.

Definition ares_free_list (p : ptr) : M unit :=
  fun st => match p with
            | Some a => match lists st !! a with
                        | Some _ => Some (tt, set_lists (delete a) st)
                        | None => None
                        end
            | None => Some (tt, st)
            end.

(** A call [destruct(val)] through a non-null function pointer: the
    callback is the caller's, it is recorded and assumed to leave the
    lists and nodes alone. *)
Definition call_destructor (destruct : ptr) (val : ptr) : M unit :=
  fun st => match destruct with
            | Some d =>
                Some (tt, mk_state (nodes st) (lists st) (brk st) (oracle st)
                                   (calls st ++ [(d, val)]))
            | None => None
            end.

Definition ptr_eqb (p q : ptr) : bool :=
  match p, q with
  | Some a, Some b => Pos.eqb a b
  | None, None => true
  | _, _ => false
  end.

Definition is_null (p : ptr) : bool :=
  match p with None => true | Some _ => false end.

(** ** The functions of ares__llist.c *)

Definition ares__llist_create (destruct : ptr) : M ptr :=
  let* list := ares_malloc in
  if is_null list then ret NULL else
  memset_list list ;;
  list_wr list (set_destruct destruct) ;;
  ret list.

Definition ares__llist_replace_destructor (list : ptr) (destruct : ptr) : M unit :=
  if is_null list then ret tt else
  list_wr list (set_destruct destruct).

Inductive ares__llist_insert_type_t :=
  | ARES__LLIST_INSERT_HEAD
  | ARES__LLIST_INSERT_TAIL
  | ARES__LLIST_INSERT_BEFORE.

Definition is_insert_before (t : ares__llist_insert_type_t) : bool :=
  match t with ARES__LLIST_INSERT_BEFORE => true | _ => false end.

Definition ares__llist_insert_at (list : ptr) (type : ares__llist_insert_type_t)
    (at_ : ptr) (val : ptr) : M ptr :=
  if is_null list || is_null val then ret NULL else
  let* node := ares_malloc in
  if is_null node then ret NULL else
  memset_node node ;;
  node_wr node (set_data val) ;;
  node_wr node (set_parent list) ;;
  let* type :=
    (if is_insert_before type then
       let* h := list_rd list l_head in
       if ptr_eqb at_ h || is_null at_
       then ret ARES__LLIST_INSERT_HEAD else ret type
     else ret type) in
  match type with
  | ARES__LLIST_INSERT_HEAD =>
      let* h := list_rd list l_head in
      node_wr node (set_next h) ;;
      node_wr node (set_prev NULL) ;;
      let* h := list_rd list l_head in
      (if is_null h then ret tt else node_wr h (set_prev node)) ;;
      list_wr list (set_head node)
  | ARES__LLIST_INSERT_TAIL =>
      node_wr node (set_next NULL) ;;
      let* t := list_rd list l_tail in
      node_wr node (set_prev t) ;;
      let* t := list_rd list l_tail in
      (if is_null t then ret tt else node_wr t (set_next node)) ;;
      list_wr list (set_tail node)
  | ARES__LLIST_INSERT_BEFORE =>
      node_wr node (set_next at_) ;;
      let* p := node_rd at_ n_prev in
      node_wr node (set_prev p) ;;
      node_wr at_ (set_prev node)
  end ;;
  let* t := list_rd list l_tail in
  (if is_null t then list_wr list (set_tail node) else ret tt) ;;
  let* h := list_rd list l_head in
  (if is_null h then list_wr list (set_head node) else ret tt) ;;
  list_wr list (set_cnt size_incr) ;;
  ret node.

Definition ares__llist_insert_first (list : ptr) (val : ptr) : M ptr :=
  ares__llist_insert_at list ARES__LLIST_INSERT_HEAD NULL val.

Definition ares__llist_insert_last (list : ptr) (val : ptr) : M ptr :=
  ares__llist_insert_at list ARES__LLIST_INSERT_TAIL NULL val.

Definition ares__llist_insert_before (node : ptr) (val : ptr) : M ptr :=
  if is_null node then ret NULL else
  let* list := node_rd node n_parent in
  ares__llist_insert_at list ARES__LLIST_INSERT_BEFORE node val.

Definition ares__llist_insert_after (node : ptr) (val : ptr) : M ptr :=
  if is_null node then ret NULL else
  let* nx := node_rd node n_next in
  if is_null nx then
    let* list := node_rd node n_parent in
    ares__llist_insert_last list val
  else
    let* list := node_rd node n_parent in
    let* nx := node_rd node n_next in
    ares__llist_insert_at list ARES__LLIST_INSERT_BEFORE nx val.

Definition ares__llist_node_first (list : ptr) : M ptr :=
  if is_null list then ret NULL else list_rd list l_head.

Definition ares__llist_node_last (list : ptr) : M ptr :=
  if is_null list then ret NULL else list_rd list l_tail.

Definition ares__llist_node_next (node : ptr) : M ptr :=
  if is_null node then ret NULL else node_rd node n_next.

Definition ares__llist_node_prev (node : ptr) : M ptr :=
  if is_null node then ret NULL else node_rd node n_prev.

Definition ares__llist_node_val (node : ptr) : M ptr :=
  if is_null node then ret NULL else node_rd node n_data.

Definition ares__llist_len (list : ptr) : M Z :=
  if is_null list then ret 0 else list_rd list l_cnt.

Definition ares__llist_node_parent (node : ptr) : M ptr :=
  if is_null node then ret NULL else node_rd node n_parent.

Definition ares__llist_first_val (list : ptr) : M ptr :=
  let* n := ares__llist_node_first list in ares__llist_node_val n.

Definition ares__llist_last_val (list : ptr) : M ptr :=
  let* n := ares__llist_node_last list in ares__llist_node_val n.

Definition ares__llist_node_claim (node : ptr) : M ptr :=
  if is_null node then ret NULL else
  let* list := node_rd node n_parent in
  let* val := node_rd node n_data in
  let* p := node_rd node n_prev in
  (if is_null p then ret tt else
     let* nx := node_rd node n_next in node_wr p (set_next nx)) ;;
  let* nx := node_rd node n_next in
  (if is_null nx then ret tt else
     let* p := node_rd node n_prev in node_wr nx (set_prev p)) ;;
  let* h := list_rd list l_head in
  (if ptr_eqb node h then
     let* nx := node_rd node n_next in list_wr list (set_head nx)
   else ret tt) ;;
  let* t := list_rd list l_tail in
  (if ptr_eqb node t then
     let* p := node_rd node n_prev in list_wr list (set_tail p)
   else ret tt) ;;
  ares_free_node node ;;
  list_wr list (set_cnt size_decr) ;;
  ret val.

Definition ares__llist_node_destroy (node : ptr) : M unit :=
  if is_null node then ret tt else
  let* list := node_rd node n_parent in
  let* destruct := list_rd list l_destruct in
  let* val := ares__llist_node_claim node in
  if negb (is_null val) && negb (is_null destruct)
  then call_destructor destruct val else ret tt.

Definition ares__llist_node_replace (node : ptr) (val : ptr) : M unit :=
  if is_null node then ret tt else
  let* list := node_rd node n_parent in
  let* destruct := list_rd list l_destruct in
  (if negb (is_null destruct) then
     let* d := node_rd node n_data in call_destructor destruct d
   else ret tt) ;;
  node_wr node (set_data val).

(** The [while] loop of [ares__llist_destroy]; every turn frees a node,
    [fuel] bounds the number of turns. *)
Fixpoint destroy_loop (fuel : nat) (list : ptr) : M unit :=
  match fuel with
  | O => fun _ => None
  | S fuel' =>
      let* node := ares__llist_node_first list in
      if negb (is_null node) then
        ares__llist_node_destroy node ;;
        destroy_loop fuel' list
      else ret tt
  end.

(** Every turn of the loop frees a live node or is undefined, so one turn
    more than there are live nodes is all the loop can ever take. *)
Definition ares__llist_destroy (list : ptr) : M unit :=
  if is_null list then ret tt else
  (fun st => destroy_loop (S (size (nodes st))) list st) ;;
  ares_free_list list.

(** ** Observations used by the statements *)

(** The four insertion operations of the interface, as data, so that a
    statement can range over all of them and over sequences of them. *)
Inductive insert_op :=
  | Insert_first (list : ptr)
  | Insert_last (list : ptr)
  | Insert_before (node : ptr)
  | Insert_after (node : ptr).

Definition run_insert (op : insert_op) (val : ptr) : M ptr :=
  match op with
  | Insert_first list => ares__llist_insert_first list val
  | Insert_last list => ares__llist_insert_last list val
  | Insert_before node => ares__llist_insert_before node val
  | Insert_after node => ares__llist_insert_after node val
  end.

(** The nodes met by following [next] from [p] until [NULL] (or until a
    pointer to no live node), at most [fuel] of them. *)
Fixpoint next_chain (fuel : nat) (st : state) (p : ptr) : list loc :=
  match fuel, p with
  | S fuel', Some a =>
      match nodes st !! a with
      | Some N => a :: next_chain fuel' st (n_next N)
      | None => []
      end
  | _, _ => []
  end.

(** The nodes reachable from the head of list [l] along [next]; no walk
    without a cycle is longer than the number of live nodes. *)
Definition reachable (st : state) (l : loc) : list loc :=
  match lists st !! l with
  | Some L => next_chain (size (nodes st)) st (l_head L)
  | None => []
  end.

(** The next request to [ares_malloc] is refused. *)
Definition malloc_fails (st : state) : bool :=
  match oracle st with
  | true :: _ => false
  | _ => true
  end.

(** The node an insertion is relative to, if any, is live (or the
    pointer is null, which the operation checks for itself). *)
Definition node_live (st : state) (p : ptr) : bool :=
  match p with
  | Some a => match nodes st !! a with Some _ => true | None => false end
  | None => false
  end.

Definition target_ok (st : state) (op : insert_op) : bool :=
  match op with
  | Insert_before node | Insert_after node => is_null node || node_live st node
  | _ => true
  end.

(** A node pointer [claim] and [destroy] can be given: the node is live,
    its parent is a live list, and its [prev] and [next] are each null or
    a live node.  The two functions read and write through exactly these
    pointers. *)
Definition ptr_ok (st : state) (p : ptr) : bool := is_null p || node_live st p.

Definition node_linked (st : state) (node : ptr) : bool :=
  match node with
  | Some n =>
      match nodes st !! n with
      | Some N =>
          match n_parent N with
          | Some l =>
              match lists st !! l with
              | Some _ => ptr_ok st (n_prev N) && ptr_ok st (n_next N)
              | None => false
              end
          | None => false
          end
      | None => false
      end
  | None => false
  end.

(** ** Well-linked lists

    [chain st l p nvs q]: the nodes of [nvs] (address and stored value,
    in order) are live, belong to list [l] and are linked to each other in
    both directions, the first one coming after [p] and the last one
    before [q]. *)

Definition first_or (nvs : list (loc * ptr)) (q : ptr) : ptr :=
  match nvs with
  | [] => q
  | (m, _) :: _ => Some m
  end.

Definition last_or (nvs : list (loc * ptr)) (p : ptr) : ptr :=
  match last nvs with
  | Some (m, _) => Some m
  | None => p
  end.

Fixpoint chain (st : state) (l : loc) (p : ptr) (nvs : list (loc * ptr))
    (q : ptr) : Prop :=
  match nvs with
  | [] => True
  | (n, v) :: r =>
      nodes st !! n = Some (mk_node v p (first_or r q) (Some l))
      /\ chain st l (Some n) r q
  end.

(** [dll st l d nvs]: [l] is a live list with destructor [d] whose nodes
    are exactly [nvs] from head to tail, and whose count is their number. *)
Definition dll (st : state) (l : loc) (d : ptr) (nvs : list (loc * ptr)) : Prop :=
  lists st !! l = Some (mk_llist (first_or nvs None) (last_or nvs None) d
                                 (Z.of_nat (length nvs)))
  /\ chain st l None nvs None
  /\ NoDup nvs.*1
  /\ Z.of_nat (length nvs) <= SIZE_MAX.

(** The destructor calls [ares__llist_destroy] owes for the nodes [nvs]:
    one for each stored value that is not null, when there is a destructor. *)
Definition destructor_calls (d : ptr) (nvs : list (loc * ptr)) : list (loc * ptr) :=
  match d with
  | Some f => omap (fun nv => match snd nv with
                              | Some _ => Some (f, snd nv)
                              | None => None
                              end) nvs
  | None => []
  end.

(** ** Assertions on statements

    [hoare P m Q]: from a state where [P] holds, whenever [m] returns, its
    result and final state satisfy [Q].  Used for facts every branch of an
    insertion preserves; that the call returns is proved separately. *)
Definition hoare {A} (P : state -> Prop) (m : M A) (Q : A -> state -> Prop) : Prop :=
  forall st a st', P st -> m st = Some (a, st') -> Q a st'.

(** The node at [b] holds [v]. *)
Definition holds (b : loc) (v : ptr) (st : state) : Prop :=
  n_data <$> nodes st !! b = Some v.

(** A field assignment that is not to [data]. *)
Definition keeps_data (upd : ares__llist_node -> ares__llist_node) : Prop :=
  forall N, n_data (upd N) = n_data N.

(** ** Example runs

    The allocator starts at address 1 and grants the next eight requests;
    a list created first lives at address 1 and its nodes at 2, 3, ... in
    the order of their insertion. *)

Definition st_init : state := mk_state ∅ ∅ 1%positive (repeat true 8) [].

Definition final_state {A} (m : M A) (st : state) : state :=
  match m st with
  | Some (_, st') => st'
  | None => st
  end.

Definition val (k : positive) : ptr := Some k.

(** [L = create(d)] alone; then with [insert_last(L, 1)], [insert_last(L, 2)]
    and [insert_last(L, 3)]. *)
Definition st_empty (d : ptr) : state :=
  final_state (ares__llist_create d) st_init.

Definition st_12 (d : ptr) : state :=
  final_state (ares__llist_insert_last (Some 1%positive) (val 1) ;;
               ares__llist_insert_last (Some 1%positive) (val 2))
              (st_empty d).

(** The calls that build the list [1, 2], as one program. *)
Definition build_12 (d : ptr) : M ptr :=
  let* L := ares__llist_create d in
  ares__llist_insert_last L (val 1) ;;
  ares__llist_insert_last L (val 2) ;;
  ret L.

Definition st_123 (d : ptr) : state :=
  final_state (ares__llist_insert_last (Some 1%positive) (val 3)) (st_12 d).

(** The list [1, 2] when the allocator has no block left to give. *)
Definition st_12_oom (d : ptr) : state :=
  mk_state (nodes (st_12 d)) (lists (st_12 d)) (brk (st_12 d)) [] (calls (st_12 d)).

(** [insert_before(b, 99)] on the list [1, 2], [b] being the node of 2. *)
Definition st_12_before (d : ptr) : state :=
  final_state (ares__llist_insert_before (Some 3%positive) (val 99)) (st_12 d).

(** Then [claim(b)]. *)
Definition st_12_before_claimed (d : ptr) : state :=
  final_state (ares__llist_node_claim (Some 3%positive)) (st_12_before d).

(** On the list [1, 2] with nodes [a] and [h]: [x = insert_before(h, 98)],
    [y = insert_before(x, 99)], then [claim(a)], [claim(x)], [claim(h)]. *)
Definition claim_after_insert_before : M ptr :=
  ares__llist_insert_before (Some 3%positive) (val 98) ;;
  ares__llist_insert_before (Some 4%positive) (val 99) ;;
  ares__llist_node_claim (Some 2%positive) ;;
  ares__llist_node_claim (Some 4%positive) ;;
  ares__llist_node_claim (Some 3%positive).

Definition st_one_left : state :=
  final_state claim_after_insert_before (st_12 None).

(** [replace(a, NULL)] on the list [1, 2], [a] being the node of 1. *)
Definition st_12_replaced (d : ptr) : state :=
  final_state (ares__llist_node_replace (Some 2%positive) None) (st_12 d).

(** ** Callers: walking a list and sequences of calls

    A caller reaches the [i]-th node by [i] calls of [node_next] from
    [node_first] (or of [node_prev] from [node_last]). *)

Fixpoint walk_next (i : nat) (node : ptr) : M ptr :=
  match i with
  | O => ret node
  | S i' => let* nx := ares__llist_node_next node in walk_next i' nx
  end.

Fixpoint walk_prev (i : nat) (node : ptr) : M ptr :=
  match i with
  | O => ret node
  | S i' => let* p := ares__llist_node_prev node in walk_prev i' p
  end.

Definition nth_node (list : ptr) (i : nat) : M ptr :=
  let* n := ares__llist_node_first list in walk_next i n.

Definition nth_node_back (list : ptr) (i : nat) : M ptr :=
  let* n := ares__llist_node_last list in walk_prev i n.

(** The calls a user makes on one list: insertions at the two ends
    (directly, or relative to the first and last node), and removal or
    replacement of the node at a position reached by walking. *)
Inductive call :=
  | Call_insert_first (v : ptr)
  | Call_insert_last (v : ptr)
  | Call_insert_before_first (v : ptr)
  | Call_insert_after_last (v : ptr)
  | Call_claim (i : nat)
  | Call_destroy (i : nat)
  | Call_replace (i : nat) (v : ptr)
  | Call_replace_destructor (d : ptr).

Definition run_call (list : ptr) (c : call) : M unit :=
  match c with
  | Call_insert_first v => ares__llist_insert_first list v ;; ret tt
  | Call_insert_last v => ares__llist_insert_last list v ;; ret tt
  | Call_insert_before_first v =>
      let* n := ares__llist_node_first list in
      ares__llist_insert_before n v ;; ret tt
  | Call_insert_after_last v =>
      let* n := ares__llist_node_last list in
      ares__llist_insert_after n v ;; ret tt
  | Call_claim i =>
      let* n := nth_node list i in ares__llist_node_claim n ;; ret tt
  | Call_destroy i =>
      let* n := nth_node list i in ares__llist_node_destroy n
  | Call_replace i v =>
      let* n := nth_node list i in ares__llist_node_replace n v
  | Call_replace_destructor d => ares__llist_replace_destructor list d
  end.

Fixpoint run_calls (list : ptr) (cs : Datatypes.list call) : M unit :=
  match cs with
  | [] => ret tt
  | c :: cs' => run_call list c ;; run_calls list cs'
  end.

(** What the same calls do to a plain list of values: the values from
    head to tail, the destructor in force, the answers the allocator has
    left, and the destructor calls made. *)
Record model := mk_model {
  m_vals     : list ptr;
  m_destruct : ptr;
  m_oracle   : list bool;
  m_calls    : list (loc * ptr)
}.

Definition model_insert (front : bool) (v : ptr) (m : model) : model :=
  match v, m_oracle m with
  | None, _ => m
  | Some _, [] => m
  | Some _, false :: o => mk_model (m_vals m) (m_destruct m) o (m_calls m)
  | Some _, true :: o =>
      mk_model (if front then v :: m_vals m else m_vals m ++ [v])
               (m_destruct m) o (m_calls m)
  end.

Definition model_call (m : model) (c : call) : model :=
  match c with
  | Call_insert_first v => model_insert true v m
  | Call_insert_last v => model_insert false v m
  | Call_insert_before_first v =>
      match m_vals m with [] => m | _ :: _ => model_insert true v m end
  | Call_insert_after_last v =>
      match m_vals m with [] => m | _ :: _ => model_insert false v m end
  | Call_claim i =>
      mk_model (delete i (m_vals m)) (m_destruct m) (m_oracle m) (m_calls m)
  | Call_destroy i =>
      mk_model (delete i (m_vals m)) (m_destruct m) (m_oracle m)
               (m_calls m ++ match m_vals m !! i, m_destruct m with
                             | Some (Some w), Some f => [(f, Some w)]
                             | _, _ => []
                             end)
  | Call_replace i v =>
      match m_vals m !! i with
      | Some old =>
          mk_model (<[i := v]> (m_vals m)) (m_destruct m) (m_oracle m)
                   (m_calls m ++ match m_destruct m with
                                 | Some f => [(f, old)]
                                 | None => []
                                 end)
      | None => m
      end
  | Call_replace_destructor d =>
      mk_model (m_vals m) d (m_oracle m) (m_calls m)
  end.

(** The model a state stands for, given the nodes of the list. *)
Definition model_of (st : state) (d : ptr) (nvs : list (loc * ptr)) : model :=
  mk_model nvs.*2 d (oracle st) (calls st).

(** Every live object lies below the allocator's next address. *)
Definition heap_ok (st : state) : Prop :=
  map_Forall (fun a _ => (a < brk st)%positive) (nodes st)
  /\ map_Forall (fun a _ => (a < brk st)%positive) (lists st).

(** A caller's loop [for (n = node_first(list); n; n = node_next(n))]
    reading each value; [fuel] bounds the number of turns, and
    [list_values] allows one turn more than [len(list)], so that a result
    of [len(list)] values means the loop met null after the last one. *)
Fixpoint collect (fuel : nat) (node : ptr) : M (list ptr) :=
  match fuel with
  | O => ret []
  | S fuel' =>
      if is_null node then ret [] else
      let* v := ares__llist_node_val node in
      let* nx := ares__llist_node_next node in
      let* vs := collect fuel' nx in
      ret (v :: vs)
  end.

Definition list_values (list : ptr) : M (Datatypes.list ptr) :=
  let* c := ares__llist_len list in
  let* n := ares__llist_node_first list in
  collect (S (Z.to_nat c)) n.

(** Every other well-linked list of the heap is as it was. *)
Definition others_kept (l : loc) (st st' : state) : Prop :=
  forall l2 d2 nvs2, l2 <> l -> dll st l2 d2 nvs2 -> dll st' l2 d2 nvs2.

(** Two lists in one heap: the list [1, 2] at address 1 and, created
    after it with destructor 7, the list [5] at address 4. *)
Definition st_two_lists : state :=
  final_state (let* L2 := ares__llist_create (Some 7%positive) in
               ares__llist_insert_last L2 (val 5))
              (st_12 None).

(** ** Lemmas on chains *)

Section Chains.
Implicit Types (st : state) (l n m : loc) (p q v : ptr)
               (nvs xs ys : list (loc * ptr)).

Lemma last_or_snoc xs m v p : last_or (xs ++ [(m, v)]) p = Some m.
Proof. unfold last_or. by rewrite last_snoc. Qed.

Lemma last_or_cons_app xs m v ys p :
  last_or (xs ++ (m, v) :: ys) p = last_or ys (Some m).
Proof.
  unfold last_or. rewrite last_app. simpl.
  destruct ys as [|y ys]; simpl; [done|].
  rewrite last_cons. destruct (last ys) as [[]|]; [done|]. by destruct y.
Qed.

Lemma last_or_app xs ys p : last_or (xs ++ ys) p = last_or ys (last_or xs p).
Proof.
  unfold last_or. rewrite last_app. by destruct (last ys) as [[]|].
Qed.

Lemma first_or_app xs ys q : first_or (xs ++ ys) q = first_or xs (first_or ys q).
Proof. by destruct xs as [|[] ?]. Qed.

Lemma chain_app st l p xs ys q :
  chain st l p (xs ++ ys) q <->
  chain st l p xs (first_or ys q) /\ chain st l (last_or xs p) ys q.
Proof.
  revert p. induction xs as [|[n v] xs IH]; intros p; simpl.
  - unfold last_or; simpl. tauto.
  - rewrite IH, first_or_app.
    replace (last_or ((n, v) :: xs) p) with (last_or xs (Some n)); [tauto|].
    apply (eq_sym (last_or_cons_app [] n v xs p)).
Qed.

Lemma chain_frame st st' l p nvs q :
  (forall n, n ∈ nvs.*1 -> nodes st' !! n = nodes st !! n) ->
  chain st l p nvs q -> chain st' l p nvs q.
Proof.
  revert p. induction nvs as [|[n v] r IH]; intros p Hfr; simpl; [done|].
  intros [Hn Hr]. split.
  - rewrite Hfr; [done|]. simpl. set_solver.
  - apply IH; [|done]. intros m Hm. apply Hfr. simpl. set_solver.
Qed.

Lemma chain_lookup st l p nvs q n v :
  chain st l p nvs q -> (n, v) ∈ nvs ->
  exists N, nodes st !! n = Some N /\ n_data N = v /\ n_parent N = Some l.
Proof.
  revert p. induction nvs as [|[m w] r IH]; intros p; simpl.
  - intros _ H. by apply elem_of_nil in H.
  - intros [Hm Hr] Hin. apply elem_of_cons in Hin as [Heq|Hin].
    + simplify_eq. eauto.
    + eauto.
Qed.
End Chains.

(** ** Symbolic execution of the statements

    [exec] runs a function body on a state whose relevant lookups are
    hypotheses: it unfolds the statements and rewrites every read with the
    known content of the store, one statement after the other. *)

Ltac exec_unfold :=
  unfold bind, ret, node_rd, node_wr, list_rd, list_wr, ares_free_node,
         ares_free_list, memset_node, memset_list, call_destructor,
         set_nodes, set_lists; cbn.

Ltac exec_step :=
  first
    [ match goal with
      | H : nodes _ !! _ = Some _ |- _ => rewrite H
      | H : lists _ !! _ = Some _ |- _ => rewrite H
      end
    | rewrite lookup_insert_eq
    | rewrite lookup_insert_ne by congruence
    | rewrite Pos.eqb_refl
    | match goal with
      | |- context [Pos.eqb ?a ?b] =>
          rewrite (proj2 (Pos.eqb_neq a b)) by congruence
      end ];
  cbn.

Ltac exec := exec_unfold; repeat exec_step.

Lemma size_decr_S (k : nat) :
  Z.of_nat (S k) <= SIZE_MAX -> size_decr (Z.of_nat (S k)) = Z.of_nat k.
Proof.
  unfold size_decr, SIZE_MAX. intros H.
  rewrite Z.mod_small; lia.
Qed.

Lemma size_decr_length (xs ys : list (loc * ptr)) (x : loc * ptr) :
  Z.of_nat (length (xs ++ x :: ys)) <= SIZE_MAX ->
  size_decr (Z.of_nat (length (xs ++ x :: ys))) = Z.of_nat (length (xs ++ ys)).
Proof.
  rewrite !length_app. simpl. rewrite Nat.add_succ_r. apply size_decr_S.
Qed.

Lemma last_or_cons_elem (y : loc * ptr) ys :
  exists t, (forall p, last_or (y :: ys) p = Some t) ∧ t ∈ (y :: ys).*1.
Proof.
  revert y. induction ys as [|z ys IH]; intros [m w].
  - exists m. split; [done|]. simpl. set_solver.
  - destruct (IH z) as (t & Ht & Hin). exists t. split.
    + intros p. rewrite <- (Ht p). unfold last_or. by rewrite last_cons_cons.
    + rewrite fmap_cons. set_solver.
Qed.

Lemma first_or_snoc_elem xs (x : loc * ptr) :
  exists h, (forall q, first_or (xs ++ [x]) q = Some h) ∧ h ∈ (xs ++ [x]).*1.
Proof.
  destruct xs as [|[m w] xs]; destruct x as [n v]; simpl.
  - exists n. split; [done|]. set_solver.
  - exists m. split; [done|]. set_solver.
Qed.

Lemma NoDup_mid2 (A B : list loc) a b :
  NoDup (A ++ a :: b :: B) ->
  ((a ∉ A) ∧ (b ∉ A)) ∧ ((a ∉ B) ∧ (b ∉ B)) ∧ a ≠ b.
Proof. rewrite NoDup_app, !NoDup_cons. set_solver. Qed.

Lemma NoDup_mid3 (A B : list loc) a b c :
  NoDup (A ++ a :: b :: c :: B) ->
  ((a ∉ A) ∧ (b ∉ A) ∧ (c ∉ A)) ∧ ((a ∉ B) ∧ (b ∉ B) ∧ (c ∉ B))
  ∧ (a ≠ b ∧ b ≠ c ∧ a ≠ c).
Proof. rewrite NoDup_app, !NoDup_cons. set_solver. Qed.

Lemma NoDup_mid1 (A B : list loc) a :
  NoDup (A ++ a :: B) -> (a ∉ A) ∧ (a ∉ B) ∧ NoDup (A ++ B).
Proof. rewrite !NoDup_app, NoDup_cons. set_solver. Qed.

(** A lookup at an address other than the ones written or freed. *)
Ltac frame_lookup :=
  cbn;
  repeat first
    [ rewrite lookup_delete_ne by (by intros ->)
    | rewrite lookup_insert_ne by (by intros ->) ];
  done.

(** [claim] of a node of a well-linked list, by cases on the node being
    first and being last. *)
Lemma claim_dll st l d xs n v ys :
  dll st l d (xs ++ (n, v) :: ys) ->
  exists st', ares__llist_node_claim (Some n) st = Some (v, st')
    /\ dll st' l d (xs ++ ys)
    /\ nodes st' !! n = None
    /\ (forall m, m ∉ (xs ++ (n, v) :: ys).*1 -> nodes st' !! m = nodes st !! m)
    /\ (forall l', l' <> l -> lists st' !! l' = lists st !! l')
    /\ calls st' = calls st /\ brk st' = brk st /\ oracle st' = oracle st.
Proof.
  intros (HL & Hch & Hnd & Hsz). unfold dll.
  pose proof (size_decr_length _ _ _ Hsz) as Hdecr.
  assert (Hsz' : Z.of_nat (length (xs ++ ys)) <= SIZE_MAX).
  { revert Hsz. rewrite !length_app. simpl. lia. }
  revert HL Hdecr Hsz'.
  generalize (Z.of_nat (length (xs ++ (n, v) :: ys))).
  generalize (Z.of_nat (length (xs ++ ys))).
  intros c' c HL Hdecr Hsz'. clear Hsz.
  apply chain_app in Hch as [Hxs [Hn Hys]]. simpl in Hn.
  rewrite first_or_app, last_or_cons_app in HL. simpl in HL.
  rewrite fmap_app, fmap_cons in Hnd. cbn [fst] in Hnd.
  destruct (NoDup_mid1 _ _ _ Hnd) as (Hnx & Hny & Hnd').
  rewrite <- fmap_app in Hnd'.
  assert (Hfr : forall m, m ∉ (xs ++ (n, v) :: ys).*1 ->
                 m ≠ n ∧ (m ∉ xs.*1) ∧ (m ∉ ys.*1)).
  { intros m. rewrite fmap_app, fmap_cons, elem_of_app, elem_of_cons. tauto. }
  unfold ares__llist_node_claim. cbn [is_null].
  destruct xs as [|[p pv] xs' _] using rev_ind; destruct ys as [|[q qv] ys'].
  - cbn in Hn, HL. exec. eexists; split; [reflexivity|].
    cbn. split_and!; try done.
    + rewrite lookup_insert_eq. unfold set_cnt; cbn. by rewrite Hdecr.
    + apply lookup_delete_eq.
    + intros m (? & _)%Hfr. frame_lookup.
    + intros l' Hl'. by rewrite !lookup_insert_ne.
  - destruct (last_or_cons_elem (q, qv) ys') as (t & Ht & Htin).
    rewrite Ht in HL.
    cbn in Hn, HL, Hys. destruct Hys as [Hq Hys].
    rewrite fmap_cons in Hnd. cbn [fmap list_fmap fst app] in Hnd.
    destruct (NoDup_mid2 [] _ _ _ Hnd) as (_ & (Hn' & Hq') & Hnq).
    assert (n <> t) by (by intros ->).
    exec. eexists; split; [reflexivity|].
    cbn [app]. rewrite Ht.
    cbn. split_and!; try done.
    + rewrite lookup_insert_eq. unfold set_cnt; cbn. by rewrite Hdecr.
    + rewrite lookup_delete_ne, lookup_insert_eq by done. done.
    + eapply chain_frame; [|exact Hys]. intros m Hm. frame_lookup.
    + apply lookup_delete_eq.
    + intros m (? & _ & Hm)%Hfr. rewrite fmap_cons in Hm. cbn in Hm. rewrite not_elem_of_cons in Hm.
      destruct Hm. frame_lookup.
    + intros l' Hl'. by rewrite !lookup_insert_ne.
  - destruct (first_or_snoc_elem xs' (p, pv)) as (h & Hh & Hhin).
    rewrite Hh in HL. rewrite last_or_snoc in Hn.
    apply chain_app in Hxs as [Hxs' [Hp _]].
    cbn in Hn, HL, Hp.
    rewrite fmap_app, <- app_assoc in Hnd. cbn [fmap list_fmap fst app] in Hnd.
    destruct (NoDup_mid2 _ [] _ _ Hnd) as ((Hp' & Hn') & _ & Hpn).
    assert (n <> h) by (by intros ->).
    exec. eexists; split; [reflexivity|].
    rewrite app_nil_r, Hh, last_or_snoc.
    cbn. split_and!; try done.
    + rewrite lookup_insert_eq. unfold set_cnt; cbn. by rewrite Hdecr.
    + apply chain_app. split; [|split; [|done]].
      * eapply chain_frame; [|exact Hxs']. intros m Hm. frame_lookup.
      * cbn. rewrite lookup_delete_ne, lookup_insert_eq by done. done.
    + by rewrite app_nil_r in Hnd'.
    + apply lookup_delete_eq.
    + intros m (? & Hm & _)%Hfr.
      rewrite fmap_app in Hm. cbn in Hm.
      rewrite not_elem_of_app, not_elem_of_cons in Hm.
      destruct Hm as (? & ? & _). frame_lookup.
    + intros l' Hl'. by rewrite !lookup_insert_ne.
  - destruct (first_or_snoc_elem xs' (p, pv)) as (h & Hh & Hhin).
    destruct (last_or_cons_elem (q, qv) ys') as (t & Ht & Htin).
    rewrite Hh, Ht in HL. rewrite last_or_snoc in Hn.
    apply chain_app in Hxs as [Hxs' [Hp _]].
    cbn in Hn, HL, Hp, Hys. destruct Hys as [Hq Hys].
    rewrite fmap_app, <- app_assoc, fmap_cons in Hnd.
    cbn [fmap list_fmap fst app] in Hnd.
    destruct (NoDup_mid3 _ _ _ _ _ Hnd)
      as ((Hp' & Hn' & Hq') & (Hp'' & Hn'' & Hq'') & (Hpn & Hnq & Hpq)).
    assert (n <> h) by (by intros ->).
    assert (n <> t) by (by intros ->).
    exec. eexists; split; [reflexivity|].
    rewrite first_or_app, last_or_app, Hh, Ht.
    cbn. split_and!; try done.
    + rewrite lookup_insert_eq. unfold set_cnt; cbn. by rewrite Hdecr.
    + apply chain_app. split.
      * apply chain_app. split; [|split; [|done]].
        -- eapply chain_frame; [|exact Hxs']. intros m Hm. frame_lookup.
        -- cbn. rewrite lookup_delete_ne by done.
           rewrite lookup_insert_ne, lookup_insert_eq by done. done.
      * rewrite last_or_snoc. cbn. split.
        -- rewrite lookup_delete_ne, lookup_insert_eq by done. done.
        -- eapply chain_frame; [|exact Hys]. intros m Hm. frame_lookup.
    + apply lookup_delete_eq.
    + intros m (? & Hm & Hm')%Hfr.
      rewrite fmap_app in Hm. cbn in Hm.
      rewrite not_elem_of_app, not_elem_of_cons in Hm.
      rewrite fmap_cons in Hm'. cbn in Hm'. rewrite not_elem_of_cons in Hm'.
      destruct Hm as (? & ? & _), Hm' as (? & ?). frame_lookup.
    + intros l' Hl'. by rewrite !lookup_insert_ne.
Qed.

(** ** Removal on well-linked lists *)

Lemma dll_ext st st' l d nvs :
  nodes st' = nodes st -> lists st' = lists st ->
  dll st l d nvs -> dll st' l d nvs.
Proof.
  intros Hn Hl (HL & Hch & Hnd & Hsz). unfold dll. rewrite Hl.
  split_and!; try done.
  eapply chain_frame; [|exact Hch]. intros. by rewrite Hn.
Qed.

Lemma bind_eq {A B} (m : M A) (k : A -> M B) st a st' :
  m st = Some (a, st') -> bind m k st = k a st'.
Proof. unfold bind. by intros ->. Qed.

Lemma destructor_calls_cons d n v nvs :
  destructor_calls d ((n, v) :: nvs)
  = destructor_calls d [(n, v)] ++ destructor_calls d nvs.
Proof. destruct d, v; reflexivity. Qed.

Lemma destructor_calls_nil d : destructor_calls d [] = [].
Proof. by destruct d. Qed.

Lemma node_destroy_dll st l d xs n v ys :
  dll st l d (xs ++ (n, v) :: ys) ->
  exists st', ares__llist_node_destroy (Some n) st = Some (tt, st')
    /\ dll st' l d (xs ++ ys)
    /\ nodes st' !! n = None
    /\ (forall m, m ∉ (xs ++ (n, v) :: ys).*1 -> nodes st' !! m = nodes st !! m)
    /\ (forall l', l' <> l -> lists st' !! l' = lists st !! l')
    /\ calls st' = calls st ++ destructor_calls d [(n, v)]
    /\ brk st' = brk st /\ oracle st' = oracle st.
Proof.
  intros Hdll.
  destruct (claim_dll _ _ _ _ _ _ _ Hdll)
    as (st1 & Hclaim & Hdll1 & Hgone & Hfr & Hfl & Hcalls & Hbrk & Horacle).
  destruct Hdll as (HL & Hch & _).
  apply chain_app in Hch as [_ [Hn _]].
  unfold ares__llist_node_destroy. cbn [is_null].
  rewrite (bind_eq _ _ st (Some l) st) by (unfold node_rd; by rewrite Hn).
  rewrite (bind_eq _ _ st d st) by (unfold list_rd; by rewrite HL).
  rewrite (bind_eq _ _ _ _ _ Hclaim).
  destruct v as [v|], d as [f|]; cbn.
  - eexists; split; [reflexivity|]. cbn. split_and!; try done.
    + eapply dll_ext; [| |exact Hdll1]; done.
    + by rewrite Hcalls.
  - exists st1. rewrite app_nil_r. done.
  - exists st1. rewrite app_nil_r. done.
  - exists st1. rewrite app_nil_r. done.
Qed.

(** A well-linked list has no more nodes than the store: the fuel
    [ares__llist_destroy] gives its loop is enough. *)
Lemma dll_length_le_size st l d nvs :
  dll st l d nvs -> (length nvs <= size (nodes st))%nat.
Proof.
  intros (_ & Hch & Hnd & _).
  rewrite <- (length_fmap fst nvs), <- (size_list_to_set (C := gset loc)) by done.
  rewrite <- size_dom. apply subseteq_size.
  intros n Hn. apply elem_of_list_to_set, list_elem_of_fmap in Hn as ([m v] & -> & Hin).
  destruct (chain_lookup _ _ _ _ _ _ _ Hch Hin) as (N & HN & _).
  apply elem_of_dom. eauto.
Qed.

Lemma destroy_loop_dll l d nvs : forall st fuel,
  dll st l d nvs -> (length nvs < fuel)%nat ->
  exists st', destroy_loop fuel (Some l) st = Some (tt, st')
    /\ dll st' l d []
    /\ (forall n, n ∈ nvs.*1 -> nodes st' !! n = None)
    /\ (forall m, m ∉ nvs.*1 -> nodes st' !! m = nodes st !! m)
    /\ (forall l', l' <> l -> lists st' !! l' = lists st !! l')
    /\ calls st' = calls st ++ destructor_calls d nvs
    /\ brk st' = brk st /\ oracle st' = oracle st.
Proof.
  induction nvs as [|[n v] r IH]; intros st fuel Hdll Hfuel.
  - destruct fuel as [|fuel]; [simpl in Hfuel; lia|].
    exists st. destruct Hdll as (HL & ?). cbn [destroy_loop].
    unfold ares__llist_node_first. cbn [is_null].
    rewrite (bind_eq _ _ st None st) by (unfold list_rd; by rewrite HL).
    cbn. rewrite destructor_calls_nil, app_nil_r.
    split_and!; try done. intros n Hn. by apply elem_of_nil in Hn.
  - destruct fuel as [|fuel]; [simpl in Hfuel; lia|].
    destruct (node_destroy_dll st l d [] n v r Hdll)
      as (st1 & Hdes & Hdll1 & Hgone & Hfr & Hfl & Hcalls & Hbrk & Horacle).
    destruct (IH st1 fuel Hdll1 ltac:(simpl in Hfuel; lia))
      as (st2 & Hloop & Hdll2 & Hgone2 & Hfr2 & Hfl2 & Hcalls2 & Hbrk2 & Horacle2).
    destruct Hdll as (HL & _ & Hnd & _).
    rewrite fmap_cons in Hnd. apply NoDup_cons in Hnd as [Hnr _].
    exists st2. cbn [destroy_loop].
    unfold ares__llist_node_first. cbn [is_null].
    rewrite (bind_eq _ _ st (Some n) st) by (unfold list_rd; by rewrite HL).
    cbn [is_null negb].
    rewrite (bind_eq _ _ _ _ _ Hdes).
    split_and!; try done.
    + intros m Hm. rewrite fmap_cons in Hm. apply elem_of_cons in Hm as [->|Hm].
      * by rewrite Hfr2.
      * by apply Hgone2.
    + intros m Hm. rewrite Hfr2; [by apply Hfr|].
      rewrite fmap_cons in Hm. by apply not_elem_of_cons in Hm as [_ ?].
    + intros l' Hl'. rewrite Hfl2 by done. by apply Hfl.
    + rewrite Hcalls2, Hcalls, (destructor_calls_cons d n v r). by rewrite app_assoc.
    + congruence.
    + congruence.
Qed.

Lemma destroy_dll st l d nvs :
  dll st l d nvs ->
  exists st', ares__llist_destroy (Some l) st = Some (tt, st')
    /\ lists st' !! l = None
    /\ (forall n, n ∈ nvs.*1 -> nodes st' !! n = None)
    /\ (forall m, m ∉ nvs.*1 -> nodes st' !! m = nodes st !! m)
    /\ (forall l', l' <> l -> lists st' !! l' = lists st !! l')
    /\ calls st' = calls st ++ destructor_calls d nvs.
Proof.
  intros Hdll.
  pose proof (dll_length_le_size _ _ _ _ Hdll) as Hle.
  destruct (destroy_loop_dll l d nvs st (S (size (nodes st))) Hdll ltac:(lia))
    as (st1 & Hloop & (HL1 & _) & Hgone & Hfr & Hfl & Hcalls & _).
  unfold ares__llist_destroy. cbn [is_null].
  unfold bind at 1. rewrite Hloop.
  unfold ares_free_list. rewrite HL1. eexists; split; [reflexivity|].
  cbn. split_and!; try done.
  - apply lookup_delete_eq.
  - intros l' Hl'. rewrite lookup_delete_ne by done. by apply Hfl.
Qed.

(** ** Insertion when the allocator refuses *)

Lemma insert_at_alloc_failure st list type at_ v :
  malloc_fails st = true ->
  exists st', ares__llist_insert_at list type at_ v st = Some (None, st')
    /\ nodes st' = nodes st /\ lists st' = lists st
    /\ calls st' = calls st /\ brk st' = brk st.
Proof.
  unfold malloc_fails, ares__llist_insert_at. intros Hf.
  destruct (is_null list || is_null v).
  - by exists st.
  - unfold bind, ares_malloc.
    destruct (oracle st) as [|[] o]; [|done|]; cbn; eauto 10.
Qed.

(** ** The next-chain of a well-linked list, and the example states *)

Lemma next_chain_dll st l nvs : forall p fuel,
  chain st l p nvs None -> (length nvs <= fuel)%nat ->
  next_chain fuel st (first_or nvs None) = nvs.*1.
Proof.
  induction nvs as [|[n v] r IH]; intros p fuel Hch Hfuel.
  - by destruct fuel.
  - destruct fuel as [|fuel]; [simpl in Hfuel; lia|].
    destruct Hch as [Hn Hr]. cbn [first_or next_chain]. rewrite Hn.
    cbn [n_next]. rewrite (IH (Some n) fuel Hr); [done|]. simpl in Hfuel. lia.
Qed.

Lemma reachable_dll st l d nvs : dll st l d nvs -> reachable st l = nvs.*1.
Proof.
  intros Hdll. pose proof (dll_length_le_size _ _ _ _ Hdll) as Hle.
  destruct Hdll as (HL & Hch & _). unfold reachable. rewrite HL.
  by apply (next_chain_dll st l nvs None).
Qed.

(** [dll] on a concrete state, by evaluation. *)
Ltac solve_dll :=
  unfold dll; cbn [app chain first_or]; split_and!;
  first [ exact I
        | vm_compute; reflexivity
        | apply (bool_decide_unpack _); vm_compute; exact I
        | vm_compute; discriminate ].

Lemma st_12_dll d : dll (st_12 d) 1 d [(2%positive, val 1); (3%positive, val 2)].
Proof. solve_dll. Qed.

Lemma st_123_dll d :
  dll (st_123 d) 1 d [(2%positive, val 1); (3%positive, val 2); (4%positive, val 3)].
Proof. solve_dll. Qed.

(** ** Insertion on well-linked lists *)

Lemma size_incr_length (nvs : list (loc * ptr)) :
  Z.of_nat (length nvs) < SIZE_MAX ->
  size_incr (Z.of_nat (length nvs)) = Z.of_nat (S (length nvs)).
Proof.
  unfold size_incr, SIZE_MAX. intros H. rewrite Z.mod_small; lia.
Qed.

Lemma chain_fresh st l p nvs q b :
  chain st l p nvs q -> nodes st !! b = None -> b ∉ nvs.*1.
Proof.
  intros Hch Hb Hin. apply list_elem_of_fmap in Hin as ([m v] & -> & Hin).
  destruct (chain_lookup _ _ _ _ _ _ _ Hch Hin) as (N & HN & _).
  simpl in Hb. congruence.
Qed.

Lemma insert_first_dll st l d nvs w o :
  dll st l d nvs -> oracle st = true :: o -> nodes st !! brk st = None ->
  Z.of_nat (length nvs) < SIZE_MAX ->
  exists st', ares__llist_insert_first (Some l) (Some w) st = Some (Some (brk st), st')
    /\ dll st' l d ((brk st, Some w) :: nvs)
    /\ (forall m, m ∉ (brk st :: nvs.*1) -> nodes st' !! m = nodes st !! m)
    /\ (forall l', l' <> l -> lists st' !! l' = lists st !! l')
    /\ calls st' = calls st /\ oracle st' = o
    /\ brk st' = Pos.succ (brk st).
Proof.
  intros (HL & Hch & Hnd & Hsz) Ho Hb Hlt. unfold dll.
  pose proof (chain_fresh _ _ _ _ _ _ Hch Hb) as Hbn.
  pose proof (size_incr_length _ Hlt) as Hincr.
  assert (Hsz' : Z.of_nat (length ((brk st, Some w) :: nvs)) <= SIZE_MAX).
  { simpl length. lia. }
  assert (Hnd' : NoDup ((brk st, Some w) :: nvs).*1).
  { rewrite fmap_cons. by apply NoDup_cons. }
  revert HL Hincr Hsz'. simpl length.
  generalize (Z.of_nat (S (length nvs))). generalize (Z.of_nat (length nvs)).
  intros c c' HL Hincr Hsz'.
  unfold ares__llist_insert_first, ares__llist_insert_at.
  cbn [is_null orb is_insert_before].
  unfold ares_malloc. exec_unfold. rewrite Ho. cbn.
  destruct nvs as [|[h hv] r].
  - cbn in HL. repeat exec_step. eexists; split; [reflexivity|].
    cbn. split_and!; try done.
    + rewrite lookup_insert_eq. unfold set_cnt; cbn. by rewrite Hincr.
    + by rewrite lookup_insert_eq.
    + intros m Hm%not_elem_of_cons. destruct Hm. by rewrite !lookup_insert_ne.
    + intros l' Hl'. by rewrite !lookup_insert_ne.
  - destruct (last_or_cons_elem (h, hv) r) as (t & Ht & Htin).
    rewrite Ht in HL. cbn in HL. destruct Hch as [Hh Hr].
    rewrite fmap_cons in Hbn. apply not_elem_of_cons in Hbn as [Hbh Hbr].
    cbn in Hbh.
    repeat exec_step. eexists; split; [reflexivity|].
    assert (Hlast : last_or ((brk st, Some w) :: (h, hv) :: r) None = Some t).
    { etrans; [apply (last_or_cons_app [] (brk st) (Some w))|apply Ht]. }
    rewrite Hlast.
    cbn. split_and!; try done.
    + rewrite lookup_insert_eq. unfold set_cnt; cbn. by rewrite Hincr.
    + by rewrite lookup_insert_ne, lookup_insert_eq.
    + by rewrite lookup_insert_eq.
    + eapply chain_frame; [|exact Hr]. intros m Hm. cbn.
      rewrite fmap_cons in Hnd. apply NoDup_cons in Hnd as [Hhr _].
      rewrite !lookup_insert_ne; [done|by (intros E; subst)..].
    + intros m Hm.
      apply not_elem_of_cons in Hm as [? Hm]. apply not_elem_of_cons in Hm as [? _].
      by rewrite !lookup_insert_ne.
    + intros l' Hl'. by rewrite !lookup_insert_ne.
Qed.

Lemma insert_last_dll st l d nvs w o :
  dll st l d nvs -> oracle st = true :: o -> nodes st !! brk st = None ->
  Z.of_nat (length nvs) < SIZE_MAX ->
  exists st', ares__llist_insert_last (Some l) (Some w) st = Some (Some (brk st), st')
    /\ dll st' l d (nvs ++ [(brk st, Some w)])
    /\ (forall m, m ∉ (brk st :: nvs.*1) -> nodes st' !! m = nodes st !! m)
    /\ (forall l', l' <> l -> lists st' !! l' = lists st !! l')
    /\ calls st' = calls st /\ oracle st' = o
    /\ brk st' = Pos.succ (brk st).
Proof.
  intros (HL & Hch & Hnd & Hsz) Ho Hb Hlt. unfold dll.
  pose proof (chain_fresh _ _ _ _ _ _ Hch Hb) as Hbn.
  pose proof (size_incr_length _ Hlt) as Hincr.
  assert (Hsz' : Z.of_nat (length (nvs ++ [(brk st, Some w)])) <= SIZE_MAX).
  { rewrite length_app. simpl length. lia. }
  assert (Hnd' : NoDup (nvs ++ [(brk st, Some w)]).*1).
  { rewrite fmap_app. apply NoDup_app. split_and!; [done| |apply NoDup_singleton].
    intros m Hm Hm'%list_elem_of_singleton. simpl in Hm'. by subst. }
  revert HL Hincr Hsz'. rewrite length_app, Nat.add_1_r.
  generalize (Z.of_nat (S (length nvs))). generalize (Z.of_nat (length nvs)).
  intros c c' HL Hincr Hsz'.
  unfold ares__llist_insert_last, ares__llist_insert_at.
  cbn [is_null orb is_insert_before].
  unfold ares_malloc. exec_unfold. rewrite Ho. cbn.
  destruct nvs as [|[t tv] xs _] using rev_ind.
  - cbn in HL. repeat exec_step. eexists; split; [reflexivity|].
    cbn. split_and!; try done.
    + rewrite lookup_insert_eq. unfold set_cnt; cbn. by rewrite Hincr.
    + by rewrite lookup_insert_eq.
    + intros m Hm%not_elem_of_cons. destruct Hm. by rewrite !lookup_insert_ne.
    + intros l' Hl'. by rewrite !lookup_insert_ne.
  - destruct (first_or_snoc_elem xs (t, tv)) as (h & Hh & Hhin).
    rewrite Hh, last_or_snoc in HL.
    apply chain_app in Hch as [Hxs [Ht _]]. cbn in Ht.
    rewrite fmap_app in Hbn, Hnd. cbn in Hbn, Hnd.
    apply not_elem_of_app in Hbn as [Hbx Hbt].
    apply not_elem_of_cons in Hbt as [Hbt _].
    apply NoDup_app in Hnd as (_ & Htx & _).
    repeat exec_step. eexists; split; [reflexivity|].
    rewrite first_or_app, Hh, last_or_snoc.
    cbn. split_and!; try done.
    + rewrite lookup_insert_eq. unfold set_cnt; cbn. by rewrite Hincr.
    + apply chain_app. split; [apply chain_app; split|].
      * eapply chain_frame; [|exact Hxs]. intros m Hm. cbn.
        rewrite !lookup_insert_ne; [done|intros E..];
          first [ by apply Hbx; rewrite E
                | eapply Htx; [exact Hm|rewrite E; left] ].
      * cbn. split; [|done]. by rewrite lookup_insert_eq.
      * rewrite last_or_snoc. cbn. split; [|done].
        by rewrite lookup_insert_ne, lookup_insert_eq.
    + intros m Hm.
      apply not_elem_of_cons in Hm as [? Hm]. rewrite fmap_app in Hm.
      apply not_elem_of_app in Hm as [_ Hm]. apply not_elem_of_cons in Hm as [? _].
      by rewrite !lookup_insert_ne.
    + intros l' Hl'. by rewrite !lookup_insert_ne.
Qed.

Lemma next_chain_chain st st' l nvs : forall p fuel,
  chain st l p nvs None ->
  (forall a, a ∈ nvs.*1 -> n_next <$> nodes st' !! a = n_next <$> nodes st !! a) ->
  (length nvs <= fuel)%nat ->
  next_chain fuel st' (first_or nvs None) = nvs.*1.
Proof.
  induction nvs as [|[n v] r IH]; intros p fuel Hch Hnx Hfuel.
  - by destruct fuel.
  - destruct fuel as [|fuel]; [simpl in Hfuel; lia|].
    destruct Hch as [Hn Hr]. cbn [first_or next_chain].
    pose proof (Hnx n ltac:(rewrite fmap_cons; left)) as Hn'.
    rewrite Hn in Hn'. cbn in Hn'.
    destruct (nodes st' !! n) as [N'|]; [|done]. cbn in Hn'.
    injection Hn' as ->. rewrite fmap_cons. cbn [fst]. f_equal.
    apply (IH (Some n)); [done| |simpl in Hfuel; lia].
    intros a Ha. apply Hnx. rewrite fmap_cons. by right.
Qed.

(** [insert_before] on a node [n] that has a predecessor [p]: the new
    node and [n] are linked to each other and the new node points back to
    [p]; no other node changes, [p] included. *)
Lemma insert_before_mid st l d xs p pv n v ys w o :
  dll st l d (xs ++ (p, pv) :: (n, v) :: ys) ->
  oracle st = true :: o -> nodes st !! brk st = None ->
  exists st',
    ares__llist_insert_before (Some n) (Some w) st = Some (Some (brk st), st')
    /\ nodes st' !! brk st = Some (mk_node (Some w) (Some p) (Some n) (Some l))
    /\ nodes st' !! n = Some (mk_node v (Some (brk st)) (first_or ys None) (Some l))
    /\ (forall m, m <> brk st -> m <> n -> nodes st' !! m = nodes st !! m)
    /\ ares__llist_len (Some l) st'
       = Some (size_incr (Z.of_nat (length (xs ++ (p, pv) :: (n, v) :: ys))), st')
    /\ ares__llist_node_first (Some l) st'
       = Some (first_or (xs ++ [(p, pv)]) None, st').
Proof.
  intros (HL & Hch & Hnd & Hsz) Ho Hb.
  pose proof (chain_fresh _ _ _ _ _ _ Hch Hb) as Hbn.
  revert HL. generalize (Z.of_nat (length (xs ++ (p, pv) :: (n, v) :: ys))).
  intros c HL.
  replace (xs ++ (p, pv) :: (n, v) :: ys)
    with ((xs ++ [(p, pv)]) ++ (n, v) :: ys) in * by by rewrite <- app_assoc.
  apply chain_app in Hch as [_ [Hn _]].
  rewrite last_or_snoc in Hn. cbn [first_or] in Hn.
  rewrite first_or_app, last_or_cons_app in HL.
  destruct (first_or_snoc_elem xs (p, pv)) as (h & Hh & Hhin).
  destruct (last_or_cons_elem (n, v) ys) as (t & Ht & _).
  rewrite Hh in HL. rewrite Hh.
  assert (Ht' : last_or ys (Some n) = Some t).
  { rewrite <- (Ht None). symmetry. apply (last_or_cons_app [] n v ys None). }
  rewrite Ht' in HL.
  rewrite fmap_app, fmap_cons in Hnd, Hbn. cbn [fst] in Hnd, Hbn.
  destruct (NoDup_mid1 _ _ _ Hnd) as (Hnx & _ & _).
  assert (n <> h) by (by intros ->).
  assert (brk st <> n).
  { intros E. apply Hbn. rewrite E. apply elem_of_app. right. left. }
  unfold ares__llist_insert_before. cbn [is_null].
  rewrite (bind_eq _ _ st (Some l) st) by (unfold node_rd; by rewrite Hn).
  unfold ares__llist_insert_at. cbn [is_null orb is_insert_before].
  unfold ares_malloc, ares__llist_len, ares__llist_node_first. exec_unfold.
  rewrite Ho. cbn. repeat exec_step.
  eexists; split; [reflexivity|]. cbn. repeat exec_step.
  split_and!; try done.
  intros m ? ?. by rewrite !lookup_insert_ne.
Qed.

(** Hence [p->next] is still [n], and the walk from the head along [next]
    meets the old nodes only, while the count has grown. *)
Lemma insert_before_mid_reachable st l d xs p pv n v ys w o :
  dll st l d (xs ++ (p, pv) :: (n, v) :: ys) ->
  oracle st = true :: o -> nodes st !! brk st = None ->
  exists st',
    ares__llist_insert_before (Some n) (Some w) st = Some (Some (brk st), st')
    /\ n_next <$> nodes st' !! p = Some (Some n)
    /\ ares__llist_len (Some l) st'
       = Some (size_incr (Z.of_nat (length (xs ++ (p, pv) :: (n, v) :: ys))), st')
    /\ reachable st' l = (xs ++ (p, pv) :: (n, v) :: ys).*1.
Proof.
  intros Hdll Ho Hb.
  destruct (insert_before_mid _ _ _ _ _ _ _ _ _ w o Hdll Ho Hb)
    as (st' & Hrun & Hnew & Hn' & Hfr & Hlen & Hfirst).
  pose proof (dll_length_le_size _ _ _ _ Hdll) as Hle.
  destruct Hdll as (HL & Hch & Hnd & Hsz).
  pose proof (chain_fresh _ _ _ _ _ _ Hch Hb) as Hbn.
  pose proof Hch as Hch'. apply chain_app in Hch' as [_ [Hp [Hn _]]].
  cbn [first_or] in Hp, Hn.
  assert (Hnext : forall a, a ∈ (xs ++ (p, pv) :: (n, v) :: ys).*1 ->
            n_next <$> nodes st' !! a = n_next <$> nodes st !! a).
  { intros a Ha. destruct (decide (a = n)) as [->|Hne].
    - by rewrite Hn', Hn.
    - rewrite Hfr; [done| |done]. by intros ->. }
  exists st'. split_and!; try done.
  - rewrite Hnext.
    + by rewrite Hp.
    + rewrite fmap_app, fmap_cons. apply elem_of_app. right. left.
  - unfold ares__llist_node_first, list_rd in Hfirst. cbn [is_null] in Hfirst.
    unfold reachable. destruct (lists st' !! l) as [L'|]; [|done].
    injection Hfirst as Hhd. rewrite Hhd.
    replace (first_or (xs ++ [(p, pv)]) None)
      with (first_or (xs ++ (p, pv) :: (n, v) :: ys) None)
      by (by destruct xs as [|[] ?]).
    apply (next_chain_chain st st' l _ None); [done..|].
    assert (size (nodes st) <= size (nodes st'))%nat; [|lia].
    rewrite <- !size_dom. apply subseteq_size.
    intros a [N Ha]%elem_of_dom. apply elem_of_dom.
    destruct (decide (a = n)) as [->|Hne]; [by rewrite Hn'|].
    rewrite Hfr; [by rewrite Ha| |done]. intros ->. by rewrite Hb in Ha.
Qed.

(** ** A successful insertion stores its value *)

Section Hoare.
Context {A B : Type}.
Implicit Types (P : state -> Prop).

Lemma hoare_ret P (a : A) (Q : A -> state -> Prop) :
  (forall st, P st -> Q a st) -> hoare P (ret a) Q.
Proof. intros HQ st a' st' HP [= <- <-]. by apply HQ. Qed.

Lemma hoare_bind P (R : A -> state -> Prop) (m : M A) (k : A -> M B)
    (Q : B -> state -> Prop) :
  hoare P m R -> (forall a, hoare (R a) (k a) Q) -> hoare P (bind m k) Q.
Proof.
  intros Hm Hk st b st' HP. unfold bind.
  destruct (m st) as [[a st1]|] eqn:E; [|done].
  intros Hrun. eapply Hk; [|exact Hrun]. by eapply Hm.
Qed.

Lemma hoare_bind_inv P (m : M A) (k : A -> M B) (Q : B -> state -> Prop) :
  hoare P m (fun _ => P) -> (forall a, hoare P (k a) Q) -> hoare P (bind m k) Q.
Proof. intros Hm Hk. by apply (hoare_bind P (fun _ => P)). Qed.
End Hoare.

Lemma hoare_node_rd {A} b v p (f : ares__llist_node -> A) :
  hoare (holds b v) (node_rd p f) (fun _ => holds b v).
Proof.
  intros st a st' HP. unfold node_rd.
  destruct p as [q|]; [|done]. destruct (nodes st !! q); [|done]. by intros [= _ <-].
Qed.

Lemma hoare_list_rd {A} b v p (f : ares__llist -> A) :
  hoare (holds b v) (list_rd p f) (fun _ => holds b v).
Proof.
  intros st a st' HP. unfold list_rd.
  destruct p as [q|]; [|done]. destruct (lists st !! q); [|done]. by intros [= _ <-].
Qed.

Lemma hoare_list_wr b v p upd :
  hoare (holds b v) (list_wr p upd) (fun _ => holds b v).
Proof.
  intros st a st' HP. unfold list_wr.
  destruct p as [q|]; [|done]. destruct (lists st !! q); [|done]. by intros [= _ <-].
Qed.

Lemma hoare_node_wr b v p upd :
  keeps_data upd -> hoare (holds b v) (node_wr p upd) (fun _ => holds b v).
Proof.
  intros Hupd st a st' HP. unfold node_wr.
  destruct p as [q|]; [|done]. destruct (nodes st !! q) as [N|] eqn:HN; [|done].
  intros [= _ <-]. unfold holds in *. cbn.
  destruct (decide (q = b)) as [->|Hne].
  - rewrite lookup_insert_eq. cbn. rewrite Hupd. by rewrite HN in HP.
  - by rewrite lookup_insert_ne.
Qed.

Lemma keeps_data_set_next x : keeps_data (set_next x).
Proof. by intros []. Qed.
Lemma keeps_data_set_prev x : keeps_data (set_prev x).
Proof. by intros []. Qed.
Lemma keeps_data_set_parent x : keeps_data (set_parent x).
Proof. by intros []. Qed.

(** One rule of the logic, chosen by the shape of the statement. *)
Ltac hoare_step :=
  first
    [ apply hoare_node_rd
    | apply hoare_list_rd
    | apply hoare_list_wr
    | apply hoare_node_wr;
      first [apply keeps_data_set_next | apply keeps_data_set_prev
            | apply keeps_data_set_parent]
    | apply hoare_ret; intros; first [assumption | split; [reflexivity|assumption]]
    | apply hoare_bind_inv; [|intros ?]
    | match goal with
      | |- hoare _ (if ?c then _ else _) _ => destruct c
      | |- hoare _ (match ?t with _ => _ end) _ => destruct t
      end ].

Lemma insert_at_stores_value list type at_ v st n st' :
  ares__llist_insert_at list type at_ v st = Some (Some n, st') ->
  v <> None /\ ares__llist_node_val (Some n) st' = Some (v, st').
Proof.
  unfold ares__llist_insert_at.
  destruct list as [l|]; [|by intros [=]]. destruct v as [w|]; [|by intros [=]].
  cbn [is_null orb]. unfold bind at 1, ares_malloc.
  destruct (oracle st) as [|[] o]; cbn [is_null]; [by intros [=]| |by intros [=]].
  unfold bind at 1, memset_node. unfold bind at 1, node_wr at 1.
  cbn [nodes set_nodes]. rewrite lookup_insert_eq.
  intros Hrun. split; [done|].
  match type of Hrun with
  | ?m ?s = _ =>
      assert (Hh : hoare (holds (brk st) (Some w)) m
                     (fun a s' => a = Some (brk st) /\ holds (brk st) (Some w) s'))
  end.
  { repeat hoare_step. }
  eapply Hh in Hrun as [[= <-] Hdata].
  - unfold ares__llist_node_val, node_rd, holds in *. cbn [is_null].
    destruct (nodes st' !! n) as [N|]; cbn in Hdata |- *; [|done].
    by injection Hdata as ->.
  - unfold holds. cbn. by rewrite lookup_insert_eq.
Qed.

Lemma run_insert_stores_value op v st n st' :
  run_insert op v st = Some (Some n, st') ->
  v <> None /\ ares__llist_node_val (Some n) st' = Some (v, st').
Proof.
  destruct op as [list|list|node|node]; cbn [run_insert].
  - apply insert_at_stores_value.
  - apply insert_at_stores_value.
  - unfold ares__llist_insert_before. destruct node as [a|]; [|by intros [=]].
    cbn [is_null]. unfold bind, node_rd.
    destruct (nodes st !! a); [|done]. apply insert_at_stores_value.
  - unfold ares__llist_insert_after. destruct node as [a|]; [|by intros [=]].
    cbn [is_null]. unfold bind at 1, node_rd at 1.
    destruct (nodes st !! a) as [N|] eqn:HN; [|done].
    destruct (is_null (n_next N)); unfold bind, node_rd; rewrite ?HN; cbn;
      rewrite ?HN; apply insert_at_stores_value.
Qed.

Lemma first_last_val_dll st l d nvs :
  dll st l d nvs ->
  ares__llist_first_val (Some l) st = Some (head nvs ≫= snd, st)
  /\ ares__llist_last_val (Some l) st = Some (last nvs ≫= snd, st).
Proof.
  intros (HL & Hch & _).
  unfold ares__llist_first_val, ares__llist_last_val,
    ares__llist_node_first, ares__llist_node_last, ares__llist_node_val.
  cbn [is_null]. split.
  - rewrite (bind_eq _ _ st (first_or nvs None) st)
      by (unfold list_rd; by rewrite HL).
    destruct nvs as [|[n v] r]; [done|]. destruct Hch as [Hn _].
    cbn [first_or is_null]. unfold node_rd. by rewrite Hn.
  - rewrite (bind_eq _ _ st (last_or nvs None) st)
      by (unfold list_rd; by rewrite HL).
    destruct nvs as [|[n v] r _] using rev_ind; [done|].
    apply chain_app in Hch as [_ [Hn _]].
    rewrite last_or_snoc, last_snoc. cbn [is_null]. unfold node_rd. by rewrite Hn.
Qed.

Lemma create_dll st d o :
  oracle st = true :: o ->
  exists st', ares__llist_create d st = Some (Some (brk st), st')
    /\ dll st' (brk st) d []
    /\ nodes st' = nodes st /\ calls st' = calls st /\ oracle st' = o.
Proof.
  intros Ho. unfold ares__llist_create, ares_malloc. exec_unfold. rewrite Ho.
  cbn. repeat exec_step. eexists; split; [reflexivity|].
  unfold dll. cbn. rewrite lookup_insert_eq. split_and!; try done.
  apply NoDup_nil_2.
Qed.

Lemma len_reachable_dll st l d nvs :
  dll st l d nvs ->
  ares__llist_len (Some l) st = Some (Z.of_nat (length (reachable st l)), st).
Proof.
  intros Hdll. rewrite (reachable_dll _ _ _ _ Hdll), length_fmap.
  destruct Hdll as (HL & _). unfold ares__llist_len, list_rd. cbn [is_null].
  by rewrite HL.
Qed.

(** ** Removal of any linked node

    [claim] and [destroy] on a node that need not sit in a well-linked
    list: by cases on the node's [prev] and [next] being null, the node
    itself or another live node, and on the node being the list's head and
    tail. *)

Ltac claim_case :=
  repeat first
    [ exec_step
    | match goal with
      | |- context [Pos.eqb ?a ?b] => destruct (Pos.eqb_spec a b); [subst|]; cbn
      end ].

Ltac same_node :=
  repeat match goal with
  | H1 : nodes ?st !! ?a = Some ?A, H2 : nodes ?st !! ?a = Some ?B |- _ =>
      assert (B = A) by congruence; subst B; clear H2
  end.

Lemma node_linked_inv st n :
  node_linked st (Some n) = true ->
  exists N l L,
    nodes st !! n = Some N /\ n_parent N = Some l /\ lists st !! l = Some L
    /\ ptr_ok st (n_prev N) = true /\ ptr_ok st (n_next N) = true.
Proof.
  unfold node_linked. destruct (nodes st !! n) as [N|]; [|done].
  destruct (n_parent N) as [l|] eqn:Hpar; [|done].
  destruct (lists st !! l) as [L|] eqn:HL; [|done].
  intros H. apply andb_true_iff in H as [Hp Hn]. by exists N, l, L.
Qed.

Lemma claim_linked st n N l L :
  nodes st !! n = Some N -> n_parent N = Some l -> lists st !! l = Some L ->
  ptr_ok st (n_prev N) = true -> ptr_ok st (n_next N) = true ->
  exists st' L',
    ares__llist_node_claim (Some n) st = Some (n_data N, st')
    /\ calls st' = calls st
    /\ nodes st' !! n = None
    /\ lists st' !! l = Some L'
    /\ l_destruct L' = l_destruct L
    /\ l_cnt L' = size_decr (l_cnt L).
Proof.
  unfold ptr_ok. intros HN Hp HL Hpv Hnx.
  destruct N as [v pv nx par]. cbn in Hp, Hpv, Hnx |- *. subst par.
  destruct L as [hd tl d c].
  unfold ares__llist_node_claim. cbn [is_null].
  destruct pv as [p|], nx as [x|]; cbn in Hpv, Hnx;
    try (destruct (nodes st !! p) as [P|] eqn:HP; [|done]);
    try (destruct (nodes st !! x) as [X|] eqn:HX; [|done]);
    try (destruct (decide (x = n)) as [->|]);
    try (destruct (decide (p = n)) as [->|]);
    try (destruct (decide (x = p)) as [->|]);
    same_node;
    destruct hd as [h|], tl as [t|];
    exec_unfold; claim_case;
    (do 2 eexists; split; [reflexivity|]; cbn;
     rewrite ?lookup_delete_eq, ?lookup_insert_eq; done).
Qed.

Lemma node_destroy_linked st n N l L :
  nodes st !! n = Some N -> n_parent N = Some l -> lists st !! l = Some L ->
  ptr_ok st (n_prev N) = true -> ptr_ok st (n_next N) = true ->
  exists st',
    ares__llist_node_destroy (Some n) st = Some (tt, st')
    /\ calls st' = calls st ++ match n_data N, l_destruct L with
                               | Some _, Some f => [(f, n_data N)]
                               | _, _ => []
                               end
    /\ nodes st' !! n = None.
Proof.
  intros HN Hp HL Hpv Hnx.
  destruct (claim_linked st n N l L HN Hp HL Hpv Hnx)
    as (st1 & L1 & Hclaim & Hcalls & Hgone & _).
  unfold ares__llist_node_destroy. cbn [is_null].
  rewrite (bind_eq _ _ st (Some l) st) by (unfold node_rd; by rewrite HN, Hp).
  rewrite (bind_eq _ _ st (l_destruct L) st) by (unfold list_rd; by rewrite HL).
  rewrite (bind_eq _ _ _ _ _ Hclaim).
  destruct (n_data N) as [v|], (l_destruct L) as [f|]; cbn.
  - eexists; split; [reflexivity|]. cbn. by rewrite Hcalls.
  - exists st1. by rewrite app_nil_r.
  - exists st1. by rewrite app_nil_r.
  - exists st1. by rewrite app_nil_r.
Qed.

(** A statement after which every continuation is undefined. *)
Lemma bind_undefined {A B} (P : state -> Prop) (m : M A) (k : A -> M B) st :
  P st -> hoare P m (fun _ => P) -> (forall a s, P s -> k a s = None) ->
  bind m k st = None.
Proof.
  intros HP Hm Hk. unfold bind. destruct (m st) as [[a s]|] eqn:E; [|done].
  apply Hk. by apply (Hm st a s).
Qed.

Lemma hoare_lists_node_wr (P : gmap loc ares__llist -> Prop) p upd :
  hoare (fun s => P (lists s)) (node_wr p upd) (fun _ s => P (lists s)).
Proof.
  intros st a st' HP. unfold node_wr.
  destruct p as [q|]; [|done]. destruct (nodes st !! q); [|done]. by intros [= _ <-].
Qed.

Lemma hoare_lists_node_rd {A} (P : gmap loc ares__llist -> Prop) p
    (f : ares__llist_node -> A) :
  hoare (fun s => P (lists s)) (node_rd p f) (fun _ s => P (lists s)).
Proof.
  intros st a st' HP. unfold node_rd.
  destruct p as [q|]; [|done]. destruct (nodes st !! q); [|done]. by intros [= _ <-].
Qed.

(** On a node that is not linked, [claim] reads or writes through a
    pointer to no live object. *)
Lemma claim_not_linked st n :
  node_linked st (Some n) = false -> ares__llist_node_claim (Some n) st = None.
Proof.
  unfold node_linked, ptr_ok, ares__llist_node_claim. cbn [is_null].
  destruct (nodes st !! n) as [[v pv nx par]|] eqn:HN; cbn [n_parent n_prev n_next];
    [|intros _; unfold bind, node_rd; by rewrite HN].
  intros Hl.
  rewrite (bind_eq _ _ st par st) by (unfold node_rd; by rewrite HN).
  rewrite (bind_eq _ _ st v st) by (unfold node_rd; by rewrite HN).
  rewrite (bind_eq _ _ st pv st) by (unfold node_rd; by rewrite HN).
  destruct par as [l|].
  2:{ clear Hl. apply (bind_undefined (fun _ => True)); [done|by intros ? ? ? _ _|].
      intros _ s _. apply (bind_undefined (fun _ => True)); [done|by intros ? ? ? _ _|].
      intros a s1 _. apply (bind_undefined (fun _ => True)); [done|by intros ? ? ? _ _|].
      intros _ s2 _. reflexivity. }
  destruct (lists st !! l) as [L|] eqn:HL.
  2:{ clear Hl.
      apply (bind_undefined (fun s => lists s !! l = None)); [done| |].
      { destruct (is_null pv); [by intros ? ? ? ? [= _ <-]|].
        apply hoare_bind_inv; [apply (hoare_lists_node_rd (fun m => m !! l = None))|].
        intros ?. apply (hoare_lists_node_wr (fun m => m !! l = None)). }
      intros _ s Hs.
      apply (bind_undefined (fun s => lists s !! l = None)); [done| |].
      { apply (hoare_lists_node_rd (fun m => m !! l = None)). }
      intros a s1 Hs1.
      apply (bind_undefined (fun s => lists s !! l = None)); [done| |].
      { destruct (is_null a); [by intros ? ? ? ? [= _ <-]|].
        apply hoare_bind_inv; [apply (hoare_lists_node_rd (fun m => m !! l = None))|].
        intros ?. apply (hoare_lists_node_wr (fun m => m !! l = None)). }
      intros _ s2 Hs2. unfold bind, list_rd. by rewrite Hs2. }
  destruct pv as [p|]; cbn [is_null orb node_live] in Hl |- *.
  - destruct (nodes st !! p) as [P|] eqn:HP.
    + destruct nx as [x|]; cbn [is_null orb node_live andb] in Hl; [|done].
      destruct (nodes st !! x) as [X|] eqn:HX; [done|].
      assert (x <> n) by congruence. assert (x <> p) by congruence.
      destruct (decide (p = n)) as [->|]; same_node; exec; rewrite ?HX; reflexivity.
    + exec. rewrite HP. reflexivity.
  - destruct nx as [x|]; cbn [is_null orb node_live andb] in Hl; [|done].
    destruct (nodes st !! x) as [X|] eqn:HX; [done|].
    exec. rewrite HX. reflexivity.
Qed.

Lemma node_destroy_not_linked st n :
  node_linked st (Some n) = false -> ares__llist_node_destroy (Some n) st = None.
Proof.
  intros Hl. pose proof (claim_not_linked st n Hl) as Hc.
  unfold ares__llist_node_destroy. cbn [is_null].
  unfold bind at 1, node_rd at 1. destruct (nodes st !! n) as [N|]; [|done].
  unfold bind at 1, list_rd at 1. destruct (n_parent N) as [l|]; [|done].
  destruct (lists st !! l); [|done].
  unfold bind. by rewrite Hc.
Qed.

(** Every node of a well-linked list is linked. *)
Lemma dll_node_linked st l d xs n v ys :
  dll st l d (xs ++ (n, v) :: ys) -> node_linked st (Some n) = true.
Proof.
  intros (HL & Hch & _).
  apply chain_app in Hch as [Hxs [Hn Hys]]. cbn in Hn.
  unfold node_linked, ptr_ok. rewrite Hn. cbn [n_parent n_prev n_next]. rewrite HL.
  apply andb_true_iff. split.
  - destruct xs as [|[p pv] xs' _] using rev_ind; [done|].
    apply chain_app in Hxs as [_ [Hp _]]. cbn in Hp.
    rewrite last_or_snoc. cbn. by rewrite Hp.
  - destruct ys as [|[q qv] ys']; [done|]. destruct Hys as [Hq _].
    cbn. by rewrite Hq.
Qed.

(** ** Properties of the specification *)

(** C1 (fails on the code).  The claim: after any sequence of successful
    insertions, [len(list)] is the number of nodes reachable along [next]
    from the head.  On the list [1, 2] ([create], two [insert_last]), the
    successful [insert_before(b, 99)] before the node [b] of 2 leaves
    [len] at 3 while only the two old nodes are reachable from the head. *)
Theorem C1_len_exceeds_next_chain :
  build_12 None st_init = Some (Some 1%positive, st_12 None)
  /\ dll (st_12 None) 1 None [(2%positive, val 1); (3%positive, val 2)]
  /\ ares__llist_insert_before (Some 3%positive) (val 99) (st_12 None)
     = Some (Some 4%positive, st_12_before None)
  /\ ares__llist_len (Some 1%positive) (st_12_before None)
     = Some (3, st_12_before None)
  /\ reachable (st_12_before None) 1 = [2%positive; 3%positive].
Proof.
  split; [vm_compute; reflexivity|].
  split; [apply st_12_dll|]. split_and!; vm_compute; reflexivity.
Qed.

(** C2 (fails on the code).  The claim: after [insert_before(n, v)] on a
    linked node [n] that is not the head, the former predecessor's [next]
    points to the new node.  On the list [1, 2] with [n] the node of 2
    (address 3, predecessor at address 2), the new node (address 4) gets
    [next = n] and [prev] = the predecessor, [n->prev] becomes the new
    node and the count goes from 2 to 3, but the predecessor's [next] is
    still [n]. *)
Theorem C2_insert_before_predecessor_next_stale :
  build_12 None st_init = Some (Some 1%positive, st_12 None)
  /\ ares__llist_insert_before (Some 3%positive) (val 99) (st_12 None)
    = Some (Some 4%positive, st_12_before None)
  /\ ares__llist_node_next (Some 4%positive) (st_12_before None)
     = Some (Some 3%positive, st_12_before None)
  /\ ares__llist_node_prev (Some 4%positive) (st_12_before None)
     = Some (Some 2%positive, st_12_before None)
  /\ ares__llist_node_prev (Some 3%positive) (st_12_before None)
     = Some (Some 4%positive, st_12_before None)
  /\ ares__llist_len (Some 1%positive) (st_12 None) = Some (2, st_12 None)
  /\ ares__llist_len (Some 1%positive) (st_12_before None)
     = Some (3, st_12_before None)
  /\ ares__llist_node_next (Some 2%positive) (st_12_before None)
     = Some (Some 3%positive, st_12_before None).
Proof. split_and!; vm_compute; reflexivity. Qed.

(** C3, counterexample.  On an empty list [node_first] is null and
    [insert_before(NULL, v)] returns null and inserts nothing, while
    [insert_first(list, v)] inserts. *)
Lemma C3_empty_list_counterexample :
  ares__llist_create None st_init = Some (Some 1%positive, st_empty None)
  /\ dll (st_empty None) 1 None []
  /\ (let* n := ares__llist_node_first (Some 1%positive) in
   ares__llist_insert_before n (val 5)) (st_empty None)
  = Some (None, st_empty None)
  /\ (let* n := ares__llist_node_first (Some 1%positive) in
      ares__llist_insert_before n (val 5)) (st_empty None)
     <> ares__llist_insert_first (Some 1%positive) (val 5) (st_empty None).
Proof.
  split; [vm_compute; reflexivity|]. split; [solve_dll|].
  split; [vm_compute; reflexivity|]. vm_compute. discriminate.
Qed.

(** C3, amended.  For every live list that is not empty, whose head is a
    live node with the list as its parent, and for every value [v],
    [insert_before(node_first(list), v)] and [insert_first(list, v)] give
    the same result and the same state. *)
Theorem C3_insert_before_head_is_insert_first st l L h H v :
  lists st !! l = Some L -> l_head L = Some h ->
  nodes st !! h = Some H -> n_parent H = Some l ->
  (let* n := ares__llist_node_first (Some l) in ares__llist_insert_before n v) st
  = ares__llist_insert_first (Some l) v st.
Proof.
  intros HL Hh HH Hp.
  unfold ares__llist_node_first. cbn [is_null].
  rewrite (bind_eq _ _ st (Some h) st) by (unfold list_rd; by rewrite HL, Hh).
  unfold ares__llist_insert_before. cbn [is_null].
  rewrite (bind_eq _ _ st (Some l) st) by (unfold node_rd; by rewrite HH, Hp).
  unfold ares__llist_insert_first, ares__llist_insert_at.
  cbn [is_null orb is_insert_before].
  destruct v as [v|]; cbn [is_null orb]. 2:{ reflexivity. }
  destruct L as [hd tl d c]; simpl in Hh; subst hd.
  unfold ares_malloc. exec_unfold.
  destruct (oracle st) as [|[] o]; cbn; [reflexivity| |reflexivity].
  repeat exec_step. reflexivity.
Qed.

Lemma C3_witness :
  (let* n := ares__llist_node_first (Some 1%positive) in
   ares__llist_insert_before n (val 5)) (st_12 None)
  = ares__llist_insert_first (Some 1%positive) (val 5) (st_12 None).
Proof.
  apply (C3_insert_before_head_is_insert_first (st_12 None) 1
           (mk_llist (Some 2%positive) (Some 3%positive) None 2) 2
           (mk_node (val 1) None (Some 3%positive) (Some 1%positive)) (val 5));
    vm_compute; reflexivity.
Defined.

(** C4, counterexample.  On an empty list [node_last] is null and
    [insert_after(NULL, v)] returns null and inserts nothing, while
    [insert_last(list, v)] inserts. *)
Lemma C4_empty_list_counterexample :
  ares__llist_create None st_init = Some (Some 1%positive, st_empty None)
  /\ dll (st_empty None) 1 None []
  /\ (let* n := ares__llist_node_last (Some 1%positive) in
   ares__llist_insert_after n (val 5)) (st_empty None)
  = Some (None, st_empty None)
  /\ (let* n := ares__llist_node_last (Some 1%positive) in
      ares__llist_insert_after n (val 5)) (st_empty None)
     <> ares__llist_insert_last (Some 1%positive) (val 5) (st_empty None).
Proof.
  split; [vm_compute; reflexivity|]. split; [solve_dll|].
  split; [vm_compute; reflexivity|]. vm_compute. discriminate.
Qed.

(** C4, amended.  For every live list that is not empty, whose tail is a
    live node with the list as its parent and a null [next], and for every
    value [v], [insert_after(node_last(list), v)] and
    [insert_last(list, v)] give the same result and the same state. *)
Theorem C4_insert_after_tail_is_insert_last st l L t T v :
  lists st !! l = Some L -> l_tail L = Some t ->
  nodes st !! t = Some T -> n_parent T = Some l -> n_next T = None ->
  (let* n := ares__llist_node_last (Some l) in ares__llist_insert_after n v) st
  = ares__llist_insert_last (Some l) v st.
Proof.
  intros HL Ht HT Hp Hnx.
  unfold ares__llist_node_last. cbn [is_null].
  rewrite (bind_eq _ _ st (Some t) st) by (unfold list_rd; by rewrite HL, Ht).
  unfold ares__llist_insert_after. cbn [is_null].
  rewrite (bind_eq _ _ st None st) by (unfold node_rd; by rewrite HT, Hnx).
  cbn [is_null].
  rewrite (bind_eq _ _ st (Some l) st) by (unfold node_rd; by rewrite HT, Hp).
  reflexivity.
Qed.

Lemma C4_witness :
  (let* n := ares__llist_node_last (Some 1%positive) in
   ares__llist_insert_after n (val 5)) (st_12 None)
  = ares__llist_insert_last (Some 1%positive) (val 5) (st_12 None).
Proof.
  apply (C4_insert_after_tail_is_insert_last (st_12 None) 1
           (mk_llist (Some 2%positive) (Some 3%positive) None 2) 3
           (mk_node (val 2) (Some 2%positive) None (Some 1%positive)) (val 5));
    vm_compute; reflexivity.
Defined.

(** C5 (fails on the code).  The claim: [claim(node)] on any linked node
    unlinks it from its list, patching the neighbours' links.  The run:
    on the list [1, 2] with nodes [a] and [b], [insert_before(b, 99)]
    succeeds; [b] is then a live node of the list and [node_next(a)] is
    [b].  [claim(b)] returns 2, frees [b] and takes one off the count,
    but [a]'s [next], which the insertion never turned to the new node,
    is not patched: [node_next(a)] is still [b].  The walk from the head
    meets one live node where [len] says 2, and reading the node after
    the head reads freed storage. *)
Theorem C5_claim_leaves_next_link_to_freed_node :
  build_12 None st_init = Some (Some 1%positive, st_12 None)
  /\ ares__llist_insert_before (Some 3%positive) (val 99) (st_12 None)
     = Some (Some 4%positive, st_12_before None)
  /\ node_linked (st_12_before None) (Some 3%positive) = true
  /\ ares__llist_node_parent (Some 3%positive) (st_12_before None)
     = Some (Some 1%positive, st_12_before None)
  /\ ares__llist_node_next (Some 2%positive) (st_12_before None)
     = Some (Some 3%positive, st_12_before None)
  /\ ares__llist_node_claim (Some 3%positive) (st_12_before None)
     = Some (val 2, st_12_before_claimed None)
  /\ nodes (st_12_before_claimed None) !! 3%positive = None
  /\ ares__llist_len (Some 1%positive) (st_12_before_claimed None)
     = Some (2, st_12_before_claimed None)
  /\ ares__llist_node_first (Some 1%positive) (st_12_before_claimed None)
     = Some (Some 2%positive, st_12_before_claimed None)
  /\ ares__llist_node_next (Some 2%positive) (st_12_before_claimed None)
     = Some (Some 3%positive, st_12_before_claimed None)
  /\ reachable (st_12_before_claimed None) 1 = [2%positive]
  /\ (let* h := ares__llist_node_first (Some 1%positive) in
      let* n := ares__llist_node_next h in
      ares__llist_node_val n) (st_12_before_claimed None) = None.
Proof. split_and!; vm_compute; reflexivity. Qed.

(** C6.  For every linked node [n] (a live node whose parent is a live
    list and whose [prev] and [next] are each null or live; the list
    need not be well-linked), holding [n_data N] in a list with destructor
    [l_destruct L]: [claim(n)] returns the stored value and calls no
    destructor; [destroy(n)] returns and calls the destructor exactly
    once, on the stored value, when value and destructor are both
    non-null, and makes no call otherwise.  On a node pointer that is not
    linked both calls have undefined behaviour. *)
Theorem C6_claim_silent_destroy_calls_destructor_once st n :
  (forall N l L,
     nodes st !! n = Some N -> n_parent N = Some l -> lists st !! l = Some L ->
     node_linked st (Some n) = true ->
     (exists st1, ares__llist_node_claim (Some n) st = Some (n_data N, st1)
                  /\ calls st1 = calls st)
     /\ (exists st2, ares__llist_node_destroy (Some n) st = Some (tt, st2)
                     /\ calls st2 = calls st ++ match n_data N, l_destruct L with
                                                | Some _, Some f => [(f, n_data N)]
                                                | _, _ => []
                                                end))
  /\ (node_linked st (Some n) = false ->
      ares__llist_node_claim (Some n) st = None
      /\ ares__llist_node_destroy (Some n) st = None).
Proof.
  split.
  - intros N l L HN Hp HL Hlk.
    destruct (node_linked_inv st n Hlk) as (N' & l' & L' & HN' & Hp' & HL' & Hpv & Hnx).
    assert (N' = N) by congruence. subst N'.
    assert (l' = l) by congruence. subst l'. clear HN' Hp' HL' L'.
    split.
    + destruct (claim_linked st n N l L HN Hp HL Hpv Hnx)
        as (st1 & L1 & Hclaim & Hcalls & _).
      by exists st1.
    + destruct (node_destroy_linked st n N l L HN Hp HL Hpv Hnx)
        as (st2 & Hdes & Hcalls & _).
      by exists st2.
  - intros Hlk. split.
    + by apply claim_not_linked.
    + by apply node_destroy_not_linked.
Qed.

Lemma C6_witness :
  (exists st1, ares__llist_node_claim (Some 3%positive) (st_12_before (Some 7%positive))
               = Some (val 2, st1)
               /\ calls st1 = calls (st_12_before (Some 7%positive)))
  /\ (exists st2, ares__llist_node_destroy (Some 3%positive)
                    (st_12_before (Some 7%positive)) = Some (tt, st2)
                  /\ calls st2 = calls (st_12_before (Some 7%positive))
                                 ++ [(7%positive, val 2)]).
Proof.
  apply (proj1 (C6_claim_silent_destroy_calls_destructor_once
                  (st_12_before (Some 7%positive)) 3)
               (mk_node (val 2) (Some 4%positive) None (Some 1%positive)) 1%positive
               (mk_llist (Some 2%positive) (Some 3%positive) (Some 7%positive) 3));
    vm_compute; reflexivity.
Defined.

(** C7, counterexample.  The list [1, 2] with destructor 7, after
    [replace(a, NULL)] on the node [a] of 1, has two nodes;
    [destroy(list)] calls the destructor once only, on 2, not once per
    node. *)
Lemma C7_null_value_counterexample :
  build_12 (Some 7%positive) st_init
  = Some (Some 1%positive, st_12 (Some 7%positive))
  /\ ares__llist_node_replace (Some 2%positive) None (st_12 (Some 7%positive))
     = Some (tt, st_12_replaced (Some 7%positive))
  /\ dll (st_12_replaced (Some 7%positive)) 1 (Some 7%positive)
      [(2%positive, None); (3%positive, val 2)]
  /\ exists st', ares__llist_destroy (Some 1%positive) (st_12_replaced (Some 7%positive))
                 = Some (tt, st')
     /\ calls st' = calls (st_12_replaced (Some 7%positive)) ++ [(7%positive, val 2)]
     /\ length (calls st')
        <> (length (calls (st_12_replaced (Some 7%positive))) + 2)%nat.
Proof.
  split; [vm_compute; reflexivity|]. split; [vm_compute; reflexivity|].
  split; [solve_dll|]. eexists. split; [vm_compute; reflexivity|].
  split; [vm_compute; reflexivity|]. vm_compute. discriminate.
Qed.

(** C7, amended.  [destroy(list)] on a well-linked list with nodes [nvs]
    and destructor [d] returns, frees every node of the list and the list
    itself, and calls the destructor, when there is one, once for each
    node whose value is not null, in head-to-tail order, and for no other:
    once per node exactly when no node holds a null value.  Other nodes
    and lists are untouched.  [destroy] of a null list does nothing. *)
Theorem C7_destroy_list_calls_destructor_in_order st l d nvs :
  dll st l d nvs ->
  (exists st',
     ares__llist_destroy (Some l) st = Some (tt, st')
     /\ lists st' !! l = None
     /\ (forall n, n ∈ nvs.*1 -> nodes st' !! n = None)
     /\ (forall m, m ∉ nvs.*1 -> nodes st' !! m = nodes st !! m)
     /\ (forall l', l' <> l -> lists st' !! l' = lists st !! l')
     /\ calls st' = calls st ++ destructor_calls d nvs)
  /\ (forall f, d = Some f -> Forall (fun nv => snd nv <> None) nvs ->
                destructor_calls d nvs = map (fun nv => (f, snd nv)) nvs)
  /\ (d = None -> destructor_calls d nvs = [])
  /\ ares__llist_destroy None st = Some (tt, st).
Proof.
  intros Hdll. split_and!.
  - by apply destroy_dll.
  - intros f -> Hall. clear Hdll. induction Hall as [|[n [v|]] r Hv _ IH]; [done| |done].
    cbn in IH |- *. by rewrite IH.
  - by intros ->.
  - reflexivity.
Qed.

Lemma C7_witness :
  (exists st',
     ares__llist_destroy (Some 1%positive) (st_123 (Some 7%positive)) = Some (tt, st')
     /\ lists st' !! 1%positive = None
     /\ (forall n, n ∈ [(2%positive, val 1); (3%positive, val 2); (4%positive, val 3)].*1 ->
                   nodes st' !! n = None)
     /\ (forall m, m ∉ [(2%positive, val 1); (3%positive, val 2); (4%positive, val 3)].*1 ->
                   nodes st' !! m = nodes (st_123 (Some 7%positive)) !! m)
     /\ (forall l', l' <> 1%positive ->
                    lists st' !! l' = lists (st_123 (Some 7%positive)) !! l')
     /\ calls st' = calls (st_123 (Some 7%positive))
                    ++ [(7%positive, val 1); (7%positive, val 2); (7%positive, val 3)]).
Proof.
  apply (C7_destroy_list_calls_destructor_in_order (st_123 (Some 7%positive)) 1
           (Some 7%positive)
           [(2%positive, val 1); (3%positive, val 2); (4%positive, val 3)]).
  solve_dll.
Defined.

(** The amended C7 is about well-linked lists.  After
    [insert_before(b, 99)] on the list [1, 2] (the run of C1 and C2) the
    list is not well-linked, and [destroy(list)] frees the nodes of 1 and
    2 and the list and calls the destructor on 1 and 2 only: the node of
    99, which no [next] link leads to, stays allocated. *)
Lemma destroy_after_insert_before_skips_node :
  exists st',
    ares__llist_destroy (Some 1%positive) (st_12_before (Some 7%positive))
    = Some (tt, st')
    /\ calls st' = [(7%positive, val 1); (7%positive, val 2)]
    /\ lists st' !! 1%positive = None
    /\ ares__llist_node_val (Some 4%positive) st' = Some (val 99, st').
Proof.
  eexists. split; [vm_compute; reflexivity|].
  split_and!; vm_compute; reflexivity.
Qed.

(** C8.  When the allocator refuses the next request, each of the four
    insertions (relative to a null or live node, for the two that take a
    node) returns null and leaves every list, every node and the trace of
    destructor calls as they were. *)
Theorem C8_allocation_failure_leaves_state st op v :
  malloc_fails st = true -> target_ok st op = true ->
  exists st', run_insert op v st = Some (None, st')
    /\ nodes st' = nodes st /\ lists st' = lists st
    /\ calls st' = calls st /\ brk st' = brk st.
Proof.
  intros Hf Hok. destruct op as [list|list|node|node]; cbn [run_insert].
  - by apply insert_at_alloc_failure.
  - by apply insert_at_alloc_failure.
  - unfold ares__llist_insert_before. destruct node as [n|]; cbn [is_null].
    + cbn in Hok. destruct (nodes st !! n) as [N|] eqn:HN; [|done].
      rewrite (bind_eq _ _ st (n_parent N) st) by (unfold node_rd; by rewrite HN).
      by apply insert_at_alloc_failure.
    + by exists st.
  - unfold ares__llist_insert_after. destruct node as [n|]; cbn [is_null].
    + cbn in Hok. destruct (nodes st !! n) as [N|] eqn:HN; [|done].
      rewrite (bind_eq _ _ st (n_next N) st) by (unfold node_rd; by rewrite HN).
      destruct (is_null (n_next N)).
      * rewrite (bind_eq _ _ st (n_parent N) st) by (unfold node_rd; by rewrite HN).
        by apply insert_at_alloc_failure.
      * rewrite (bind_eq _ _ st (n_parent N) st) by (unfold node_rd; by rewrite HN).
        rewrite (bind_eq _ _ st (n_next N) st) by (unfold node_rd; by rewrite HN).
        by apply insert_at_alloc_failure.
    + by exists st.
Qed.

Lemma C8_witness :
  exists st', run_insert (Insert_before (Some 3%positive)) (val 99) (st_12_oom None)
              = Some (None, st')
    /\ nodes st' = nodes (st_12_oom None) /\ lists st' = lists (st_12_oom None)
    /\ calls st' = calls (st_12_oom None) /\ brk st' = brk (st_12_oom None).
Proof.
  apply (C8_allocation_failure_leaves_state (st_12_oom None)
           (Insert_before (Some 3%positive)) (val 99));
    vm_compute; reflexivity.
Defined.

(** C9, counterexample.  [replace(a, NULL)] on the node [a] of 1 of the
    list [1, 2] with destructor 7 is not a no-op: the destructor is called
    on 1 and the node's value becomes null. *)
Lemma C9_replace_null_counterexample :
  build_12 (Some 7%positive) st_init
  = Some (Some 1%positive, st_12 (Some 7%positive))
  /\ ares__llist_node_replace (Some 2%positive) None (st_12 (Some 7%positive))
  = Some (tt, st_12_replaced (Some 7%positive))
  /\ calls (st_12 (Some 7%positive)) = []
  /\ calls (st_12_replaced (Some 7%positive)) = [(7%positive, val 1)]
  /\ ares__llist_node_val (Some 2%positive) (st_12 (Some 7%positive))
     = Some (val 1, st_12 (Some 7%positive))
  /\ ares__llist_node_val (Some 2%positive) (st_12_replaced (Some 7%positive))
     = Some (None, st_12_replaced (Some 7%positive))
  /\ ares__llist_node_replace (Some 2%positive) None (st_12 (Some 7%positive))
     <> Some (tt, st_12 (Some 7%positive)).
Proof.
  split_and!; try (vm_compute; reflexivity). vm_compute. discriminate.
Qed.

(** C9, amended.  A null list or node where one is required, and a null
    value given to an insertion, make the operation return null (0 for
    [len]) and change nothing.  [replace(node, NULL)] on a live node of a
    live list is not a no-op: it calls the list's destructor, if set, on
    the node's current value and stores null as the node's value. *)
Theorem C9_absent_argument_is_noop st :
  (forall d, ares__llist_replace_destructor None d st = Some (tt, st))
  /\ (forall v, ares__llist_insert_first None v st = Some (None, st))
  /\ (forall v, ares__llist_insert_last None v st = Some (None, st))
  /\ (forall list, ares__llist_insert_first list None st = Some (None, st))
  /\ (forall list, ares__llist_insert_last list None st = Some (None, st))
  /\ (forall v, ares__llist_insert_before None v st = Some (None, st))
  /\ (forall v, ares__llist_insert_after None v st = Some (None, st))
  /\ (forall node, node_live st node = true ->
        ares__llist_insert_before node None st = Some (None, st)
        /\ ares__llist_insert_after node None st = Some (None, st))
  /\ ares__llist_node_first None st = Some (None, st)
  /\ ares__llist_node_last None st = Some (None, st)
  /\ ares__llist_node_next None st = Some (None, st)
  /\ ares__llist_node_prev None st = Some (None, st)
  /\ ares__llist_node_val None st = Some (None, st)
  /\ ares__llist_node_parent None st = Some (None, st)
  /\ ares__llist_len None st = Some (0, st)
  /\ ares__llist_first_val None st = Some (None, st)
  /\ ares__llist_last_val None st = Some (None, st)
  /\ ares__llist_node_claim None st = Some (None, st)
  /\ ares__llist_node_destroy None st = Some (tt, st)
  /\ (forall v, ares__llist_node_replace None v st = Some (tt, st))
  /\ ares__llist_destroy None st = Some (tt, st)
  /\ (forall n N l L,
        nodes st !! n = Some N -> n_parent N = Some l -> lists st !! l = Some L ->
        exists st',
          ares__llist_node_replace (Some n) None st = Some (tt, st')
          /\ nodes st' = <[n := set_data None N]> (nodes st)
          /\ lists st' = lists st
          /\ calls st' = calls st ++ match l_destruct L with
                                     | Some f => [(f, n_data N)]
                                     | None => []
                                     end).
Proof.
  split_and!; try reflexivity.
  - intros list. unfold ares__llist_insert_first, ares__llist_insert_at.
    by rewrite orb_true_r.
  - intros list. unfold ares__llist_insert_last, ares__llist_insert_at.
    by rewrite orb_true_r.
  - intros [n|] Hlive; [|done]. cbn in Hlive.
    destruct (nodes st !! n) as [N|] eqn:HN; [|done]. split.
    + unfold ares__llist_insert_before. cbn [is_null].
      rewrite (bind_eq _ _ st (n_parent N) st) by (unfold node_rd; by rewrite HN).
      unfold ares__llist_insert_at. by rewrite orb_true_r.
    + unfold ares__llist_insert_after. cbn [is_null].
      rewrite (bind_eq _ _ st (n_next N) st) by (unfold node_rd; by rewrite HN).
      destruct (is_null (n_next N)).
      * rewrite (bind_eq _ _ st (n_parent N) st) by (unfold node_rd; by rewrite HN).
        unfold ares__llist_insert_last, ares__llist_insert_at. by rewrite orb_true_r.
      * rewrite (bind_eq _ _ st (n_parent N) st) by (unfold node_rd; by rewrite HN).
        rewrite (bind_eq _ _ st (n_next N) st) by (unfold node_rd; by rewrite HN).
        unfold ares__llist_insert_at. by rewrite orb_true_r.
  - intros n N l L HN Hp HL.
    unfold ares__llist_node_replace. cbn [is_null].
    rewrite (bind_eq _ _ st (Some l) st) by (unfold node_rd; by rewrite HN, Hp).
    rewrite (bind_eq _ _ st (l_destruct L) st) by (unfold list_rd; by rewrite HL).
    destruct (l_destruct L) as [f|]; cbn [is_null negb].
    + exec. eexists; split; [reflexivity|]. done.
    + exec. eexists; split; [reflexivity|]. cbn. by rewrite app_nil_r.
Qed.

Lemma C9_witness :
  (ares__llist_insert_before (Some 3%positive) None (st_12 (Some 7%positive))
   = Some (None, st_12 (Some 7%positive))
   /\ ares__llist_insert_after (Some 3%positive) None (st_12 (Some 7%positive))
      = Some (None, st_12 (Some 7%positive)))
  /\ exists st',
       ares__llist_node_replace (Some 2%positive) None (st_12 (Some 7%positive))
       = Some (tt, st')
       /\ nodes st'
          = <[2%positive := set_data None
                (mk_node (val 1) None (Some 3%positive) (Some 1%positive))]>
              (nodes (st_12 (Some 7%positive)))
       /\ lists st' = lists (st_12 (Some 7%positive))
       /\ calls st' = calls (st_12 (Some 7%positive)) ++ [(7%positive, val 1)].
Proof.
  destruct (C9_absent_argument_is_noop (st_12 (Some 7%positive)))
    as (_ & _ & _ & _ & _ & _ & _ & Hlive
        & _ & _ & _ & _ & _ & _ & _ & _ & _ & _ & _ & _ & _ & Hrep).
  split.
  - apply Hlive. vm_compute. reflexivity.
  - apply (Hrep 2%positive (mk_node (val 1) None (Some 3%positive) (Some 1%positive))
                1%positive
                (mk_llist (Some 2%positive) (Some 3%positive) (Some 7%positive) 2));
      vm_compute; reflexivity.
Defined.

(** C10 (fails on the code).  The claim: on a list used through [create],
    the insertions, [claim] and [destroy] only, [first_val] and [last_val]
    are null exactly when the list is empty.  On the list [1, 2] with
    nodes [a] and [h], after [x = insert_before(h, 98)],
    [y = insert_before(x, 99)], [claim(a)], [claim(x)] and [claim(h)] (all
    defined, the last one returning 2), the node [y] of 99 is the one node
    left: [len] is 1 and [node_last] is [y], [last_val] is 99, yet
    [node_first] and [first_val] are null. *)
Theorem C10_first_val_null_on_nonempty_list :
  build_12 None st_init = Some (Some 1%positive, st_12 None)
  /\ claim_after_insert_before (st_12 None) = Some (val 2, st_one_left)
  /\ ares__llist_len (Some 1%positive) st_one_left = Some (1, st_one_left)
  /\ ares__llist_node_last (Some 1%positive) st_one_left
     = Some (Some 5%positive, st_one_left)
  /\ ares__llist_last_val (Some 1%positive) st_one_left
     = Some (val 99, st_one_left)
  /\ ares__llist_node_first (Some 1%positive) st_one_left
     = Some (None, st_one_left)
  /\ ares__llist_first_val (Some 1%positive) st_one_left
     = Some (None, st_one_left).
Proof. split_and!; vm_compute; reflexivity. Qed.

(** * Further properties of the code *)

(** ** Positions in a well-linked list *)

Lemma first_or_drop (nvs : list (loc * ptr)) i :
  first_or (drop i nvs) None = fst <$> nvs !! i.
Proof.
  revert i. induction nvs as [|[n v] r IH]; intros [|i]; simpl; done.
Qed.

Lemma last_or_take (nvs : list (loc * ptr)) i :
  last_or (take (S i) nvs) None = fst <$> nvs !! i \/ (length nvs <= i)%nat.
Proof.
  destruct (nvs !! i) as [[n v]|] eqn:E.
  - left. rewrite (take_S_r _ _ _ E), last_or_snoc. done.
  - right. by apply lookup_ge_None.
Qed.

Lemma dll_lookup st l d nvs i n v :
  dll st l d nvs -> nvs !! i = Some (n, v) ->
  nodes st !! n
  = Some (mk_node v (match i with O => None | S j => fst <$> nvs !! j end)
                  (fst <$> nvs !! S i) (Some l)).
Proof.
  intros (_ & Hch & _) Hi.
  rewrite <- (take_drop_middle _ _ _ Hi) in Hch.
  apply chain_app in Hch as [_ [Hn _]]. rewrite Hn. do 2 f_equal.
  - destruct i as [|j]; [done|].
    destruct (last_or_take nvs j) as [E|E]; [done|].
    apply lookup_lt_Some in Hi. lia.
  - apply first_or_drop.
Qed.

Lemma node_next_dll st l d nvs i :
  dll st l d nvs ->
  ares__llist_node_next (fst <$> nvs !! i) st = Some (fst <$> nvs !! S i, st).
Proof.
  intros Hdll. destruct (nvs !! i) as [[n v]|] eqn:E; cbn.
  - unfold ares__llist_node_next, node_rd. cbn [is_null].
    by rewrite (dll_lookup _ _ _ _ _ _ _ Hdll E).
  - apply lookup_ge_None in E. rewrite lookup_ge_None_2 by lia. done.
Qed.

Lemma node_prev_dll st l d nvs i :
  dll st l d nvs ->
  ares__llist_node_prev (fst <$> nvs !! S i) st = Some (fst <$> nvs !! i, st)
  \/ (length nvs <= S i)%nat.
Proof.
  intros Hdll. destruct (nvs !! S i) as [[n v]|] eqn:E; cbn.
  - left. unfold ares__llist_node_prev, node_rd. cbn [is_null].
    by rewrite (dll_lookup _ _ _ _ _ _ _ Hdll E).
  - right. by apply lookup_ge_None.
Qed.

Lemma walk_next_dll st l d nvs k : forall i,
  dll st l d nvs ->
  walk_next k (fst <$> nvs !! i) st = Some (fst <$> nvs !! (i + k)%nat, st).
Proof.
  induction k as [|k IH]; intros i Hdll; cbn [walk_next].
  - by rewrite Nat.add_0_r.
  - rewrite (bind_eq _ _ _ _ _ (node_next_dll _ _ _ _ i Hdll)).
    rewrite (IH (S i) Hdll). by replace (i + S k)%nat with (S i + k)%nat by lia.
Qed.

Lemma nth_node_dll st l d nvs i :
  dll st l d nvs ->
  nth_node (Some l) i st = Some (fst <$> nvs !! i, st).
Proof.
  intros Hdll. unfold nth_node, ares__llist_node_first. cbn [is_null].
  pose proof Hdll as (HL & _).
  rewrite (bind_eq _ _ st (fst <$> nvs !! 0%nat) st).
  - apply (walk_next_dll st l d nvs i 0%nat Hdll).
  - unfold list_rd. rewrite HL. cbn. by rewrite <- first_or_drop.
Qed.

Lemma walk_prev_null st k : walk_prev k None st = Some (None, st).
Proof. induction k as [|k IH]; [done|]. cbn [walk_prev]. exact IH. Qed.

Lemma walk_prev_dll st l d nvs k : forall j,
  dll st l d nvs -> (j < length nvs)%nat ->
  walk_prev k (fst <$> nvs !! j) st
  = Some (if decide (k <= j)%nat then fst <$> nvs !! (j - k)%nat else None, st).
Proof.
  induction k as [|k IH]; intros j Hdll Hj; cbn [walk_prev].
  - rewrite decide_True by lia. by rewrite Nat.sub_0_r.
  - destruct (lookup_lt_is_Some_2 _ _ Hj) as [[n v] E].
    destruct j as [|j].
    + rewrite E. cbn [fmap option_fmap option_map fst].
      unfold ares__llist_node_prev. cbn [is_null].
      rewrite (bind_eq _ _ st None st)
        by (unfold node_rd; by rewrite (dll_lookup _ _ _ _ _ _ _ Hdll E)).
      rewrite walk_prev_null. by rewrite decide_False by lia.
    + destruct (node_prev_dll st l d nvs j Hdll) as [Hp|Hp]; [|lia].
      rewrite (bind_eq _ _ _ _ _ Hp). rewrite IH by (done || lia).
      repeat case_decide; try lia; done.
Qed.

Lemma nth_node_back_dll st l d nvs i :
  dll st l d nvs ->
  nth_node_back (Some l) i st = Some (fst <$> reverse nvs !! i, st).
Proof.
  intros Hdll. unfold nth_node_back, ares__llist_node_last. cbn [is_null].
  pose proof Hdll as (HL & _).
  rewrite (bind_eq _ _ st (last_or nvs None) st)
    by (unfold list_rd; by rewrite HL).
  destruct nvs as [|[t tv] xs _] using rev_ind.
  - cbn. rewrite walk_prev_null. done.
  - rewrite last_or_snoc.
    pose proof (walk_prev_dll st l d (xs ++ [(t, tv)]) i (length xs) Hdll) as Hw.
    rewrite lookup_app_r, Nat.sub_diag in Hw by lia. cbn in Hw.
    rewrite Hw by (rewrite length_app; simpl; lia).
    f_equal. f_equal. case_decide as Hi.
    + rewrite reverse_lookup by (rewrite length_app; simpl; lia).
      rewrite length_app. simpl. do 2 f_equal. lia.
    + rewrite (lookup_ge_None_2 (reverse _)); [done|].
      rewrite length_reverse, length_app. simpl. lia.
Qed.

(** ** Replacement on well-linked lists *)

Lemma chain_set_data st st' l p xs n v v' ys q :
  nodes st' = <[n := mk_node v' (last_or xs p) (first_or ys q) (Some l)]> (nodes st) ->
  NoDup (xs ++ (n, v) :: ys).*1 ->
  chain st l p (xs ++ (n, v) :: ys) q ->
  chain st' l p (xs ++ (n, v') :: ys) q.
Proof.
  intros Hst Hnd Hch.
  rewrite fmap_app, fmap_cons in Hnd. cbn [fst] in Hnd.
  destruct (NoDup_mid1 _ _ _ Hnd) as (Hnx & Hny & _).
  apply chain_app in Hch as [Hxs [Hn Hys]]. apply chain_app. cbn in *.
  split_and!.
  - eapply chain_frame; [|exact Hxs]. intros m Hm. rewrite Hst.
    rewrite lookup_insert_ne; [done|]. by intros ->.
  - rewrite Hst. by rewrite lookup_insert_eq.
  - eapply chain_frame; [|exact Hys]. intros m Hm. rewrite Hst.
    rewrite lookup_insert_ne; [done|]. by intros ->.
Qed.

Lemma node_replace_dll st l d xs n v ys v' :
  dll st l d (xs ++ (n, v) :: ys) ->
  exists st', ares__llist_node_replace (Some n) v' st = Some (tt, st')
    /\ dll st' l d (xs ++ (n, v') :: ys)
    /\ (forall m, m <> n -> nodes st' !! m = nodes st !! m)
    /\ lists st' = lists st
    /\ calls st' = calls st ++ match d with Some f => [(f, v)] | None => [] end
    /\ brk st' = brk st /\ oracle st' = oracle st.
Proof.
  intros (HL & Hch & Hnd & Hsz).
  pose proof Hch as Hch'. apply chain_app in Hch' as [_ [Hn _]].
  unfold ares__llist_node_replace. cbn [is_null].
  rewrite (bind_eq _ _ st (Some l) st) by (unfold node_rd; by rewrite Hn).
  rewrite (bind_eq _ _ st d st) by (unfold list_rd; by rewrite HL).
  assert (Hlen : length (xs ++ (n, v') :: ys) = length (xs ++ (n, v) :: ys)).
  { by rewrite !length_app. }
  assert (Hfst : (xs ++ (n, v') :: ys).*1 = (xs ++ (n, v) :: ys).*1).
  { by rewrite !fmap_app, !fmap_cons. }
  assert (Hdll' : forall st',
            nodes st' = <[n := set_data v' (mk_node v (last_or xs None)
                                              (first_or ys None) (Some l))]> (nodes st) ->
            lists st' = lists st -> dll st' l d (xs ++ (n, v') :: ys)).
  { intros st' Hn' Hl'. unfold dll.
    rewrite Hl', Hlen, Hfst, !first_or_app, !last_or_cons_app.
    rewrite first_or_app, last_or_cons_app in HL.
    split_and!; try done. by eapply chain_set_data; [|exact Hnd|exact Hch]. }
  destruct d as [f|]; cbn [is_null negb]; exec;
    (eexists; split; [reflexivity|]).
  - split; [by apply Hdll'|]. cbn. split_and!; try done.
    intros m Hm. by rewrite lookup_insert_ne.
  - split; [by apply Hdll'|]. cbn. split_and!; try done.
    + intros m Hm. by rewrite lookup_insert_ne.
    + by rewrite app_nil_r.
Qed.

Lemma replace_destructor_dll st l d nvs d' :
  dll st l d nvs ->
  exists st', ares__llist_replace_destructor (Some l) d' st = Some (tt, st')
    /\ dll st' l d' nvs
    /\ nodes st' = nodes st
    /\ (forall l', l' <> l -> lists st' !! l' = lists st !! l')
    /\ calls st' = calls st /\ brk st' = brk st /\ oracle st' = oracle st.
Proof.
  intros (HL & Hch & Hnd & Hsz).
  unfold ares__llist_replace_destructor. cbn [is_null]. exec.
  eexists; split; [reflexivity|]. unfold dll. cbn.
  rewrite lookup_insert_eq. split_and!; try done.
  - by eapply chain_frame; [|exact Hch].
  - intros l' Hl'. by rewrite lookup_insert_ne.
Qed.

(** ** The allocator's invariant *)

Lemma heap_ok_fresh st : heap_ok st -> nodes st !! brk st = None.
Proof.
  intros [Hn _]. destruct (nodes st !! brk st) as [N|] eqn:E; [|done].
  apply (map_Forall_lookup_1 _ _ _ _ Hn) in E. lia.
Qed.

Lemma dll_live_lt st l d nvs m :
  heap_ok st -> dll st l d nvs -> m ∈ nvs.*1 -> (m < brk st)%positive.
Proof.
  intros [Hn _] (_ & Hch & _) Hm.
  apply list_elem_of_fmap in Hm as ([m' v] & -> & Hin).
  destruct (chain_lookup _ _ _ _ _ _ _ Hch Hin) as (N & HN & _).
  apply (map_Forall_lookup_1 _ _ _ _ Hn HN).
Qed.

Lemma heap_ok_step st st' l d nvs (ns : list loc) :
  heap_ok st -> dll st l d nvs -> (brk st <= brk st')%positive ->
  (forall m, m ∉ ns -> nodes st' !! m = nodes st !! m) ->
  (forall m, m ∈ ns -> (m < brk st')%positive) ->
  (forall l', l' <> l -> lists st' !! l' = lists st !! l') ->
  heap_ok st'.
Proof.
  intros [Hn Hl] (HL & _) Hbrk Hfr Hns Hfl. split; apply map_Forall_lookup.
  - intros a N Ha. destruct (decide (a ∈ ns)) as [Hin|Hin]; [by apply Hns|].
    rewrite Hfr in Ha by done. apply (map_Forall_lookup_1 _ _ _ _ Hn) in Ha. lia.
  - intros a L Ha. destruct (decide (a = l)) as [->|Hne].
    + apply (map_Forall_lookup_1 _ _ _ _ Hl) in HL. lia.
    + rewrite Hfl in Ha by done. apply (map_Forall_lookup_1 _ _ _ _ Hl) in Ha. lia.
Qed.

Lemma heap_ok_ext st st' :
  nodes st' = nodes st -> lists st' = lists st -> brk st' = brk st ->
  heap_ok st -> heap_ok st'.
Proof. intros Hn Hl Hb [? ?]. unfold heap_ok. by rewrite Hn, Hl, Hb. Qed.

(** Another list sharing the heap is left as it is by writes that stay
    within the nodes of this list and fresh addresses. *)
Lemma dll_other st st' l d nvs (ns : list loc) l2 d2 nvs2 :
  dll st l d nvs -> l2 <> l -> dll st l2 d2 nvs2 ->
  (forall m, m ∉ ns -> nodes st' !! m = nodes st !! m) ->
  (forall m, m ∈ ns -> m ∈ nvs.*1 \/ nodes st !! m = None) ->
  (forall l', l' <> l -> lists st' !! l' = lists st !! l') ->
  dll st' l2 d2 nvs2.
Proof.
  intros (_ & Hch & _) Hne (HL2 & Hch2 & Hnd2 & Hsz2) Hfr Hns Hfl.
  unfold dll. rewrite Hfl by done. split_and!; try done.
  eapply chain_frame; [|exact Hch2]. intros m Hm. apply Hfr. intros Hin.
  apply list_elem_of_fmap in Hm as ([m' v'] & -> & Hm).
  destruct (chain_lookup _ _ _ _ _ _ _ Hch2 Hm) as (N2 & HN2 & _ & Hp2).
  destruct (Hns _ Hin) as [Hin'|Hnone]; [|simpl in Hnone; congruence].
  apply list_elem_of_fmap in Hin' as ([m'' v''] & Heq & Hin').
  destruct (chain_lookup _ _ _ _ _ _ _ Hch Hin') as (N & HN & _ & Hp).
  simpl in Heq. subst m''. simpl in HN2. congruence.
Qed.

Lemma others_kept_refl l st : others_kept l st st.
Proof. by intros l2 d2 nvs2 _ H. Qed.

Lemma others_kept_trans l st1 st2 st3 :
  others_kept l st1 st2 -> others_kept l st2 st3 -> others_kept l st1 st3.
Proof. intros H12 H23 l2 d2 nvs2 Hne H. by apply H23, H12. Qed.

Lemma others_kept_ext l st st' :
  nodes st' = nodes st -> lists st' = lists st -> others_kept l st st'.
Proof. intros Hn Hl l2 d2 nvs2 _ H. by eapply dll_ext; [| |exact H]. Qed.

(** ** Insertion at the ends, whatever the allocator answers *)

Lemma insert_at_refused l type at_ w st :
  malloc_fails st = true ->
  ares__llist_insert_at (Some l) type at_ (Some w) st
  = Some (None, mk_state (nodes st) (lists st) (brk st) (tail (oracle st)) (calls st)).
Proof.
  unfold malloc_fails, ares__llist_insert_at. cbn [is_null orb].
  unfold bind, ares_malloc. destruct st as [ns ls b o c]. cbn.
  by destruct o as [|[] o].
Qed.

Lemma insert_at_before_head st l L h v :
  lists st !! l = Some L -> l_head L = Some h ->
  ares__llist_insert_at (Some l) ARES__LLIST_INSERT_BEFORE (Some h) v st
  = ares__llist_insert_at (Some l) ARES__LLIST_INSERT_HEAD None v st.
Proof.
  intros HL Hh. unfold ares__llist_insert_at.
  cbn [is_null orb is_insert_before].
  destruct v as [v|]; cbn [is_null]; [|reflexivity].
  destruct L as [hd tl d c]; simpl in Hh; subst hd.
  unfold ares_malloc. exec_unfold.
  destruct (oracle st) as [|[] o]; cbn; [reflexivity| |reflexivity].
  repeat exec_step. reflexivity.
Qed.

Lemma insert_end_dll (front : bool) st l d nvs v :
  dll st l d nvs -> heap_ok st -> Z.of_nat (length nvs) < SIZE_MAX ->
  exists r st' nvs',
    ares__llist_insert_at (Some l)
      (if front then ARES__LLIST_INSERT_HEAD else ARES__LLIST_INSERT_TAIL) None v st
    = Some (r, st')
    /\ dll st' l d nvs' /\ heap_ok st'
    /\ model_of st' d nvs' = model_insert front v (model_of st d nvs)
    /\ (length nvs' <= S (length nvs))%nat
    /\ others_kept l st st'.
Proof.
  intros Hdll Hok Hlt.
  destruct v as [w|]; cycle 1.
  { exists None, st, nvs.
    refine (conj _ (conj Hdll (conj Hok (conj _ (conj _ (others_kept_refl _ _)))))).
    - unfold ares__llist_insert_at. cbn. by destruct front.
    - done.
    - lia. }
  destruct (oracle st) as [|[] o] eqn:Ho.
  - exists None, st, nvs.
    refine (conj _ (conj Hdll (conj Hok (conj _ (conj _ (others_kept_refl _ _)))))).
    + rewrite insert_at_refused by (unfold malloc_fails; by rewrite Ho).
      rewrite Ho. destruct st as [ns ls b oo c]. cbn in Ho. by subst oo.
    + unfold model_of, model_insert. cbn. by rewrite Ho.
    + lia.
  - pose proof (heap_ok_fresh _ Hok) as Hb.
    assert (Hstep : forall st',
              (forall m, m ∉ brk st :: nvs.*1 -> nodes st' !! m = nodes st !! m) ->
              (forall l', l' <> l -> lists st' !! l' = lists st !! l') ->
              brk st' = Pos.succ (brk st) -> heap_ok st' /\ others_kept l st st').
    { intros st' Hfr Hfl Hbrk. split.
      - eapply (heap_ok_step st st' l d nvs (brk st :: nvs.*1)); try done.
        + rewrite Hbrk. lia.
        + intros m [->|Hm]%elem_of_cons; rewrite Hbrk; [lia|].
          pose proof (dll_live_lt _ _ _ _ _ Hok Hdll Hm). lia.
      - intros l2 d2 nvs2 Hne H2.
        eapply (dll_other st st' l d nvs (brk st :: nvs.*1)); try done.
        intros m [->|Hm]%elem_of_cons; [by right|by left]. }
    destruct front.
    + destruct (insert_first_dll st l d nvs w o Hdll Ho Hb Hlt)
        as (st' & Hrun & Hdll' & Hfr & Hfl & Hc & Ho' & Hbrk).
      exists (Some (brk st)), st', ((brk st, Some w) :: nvs).
      destruct (Hstep st' Hfr Hfl Hbrk) as [Hok' Hoth].
      refine (conj Hrun (conj Hdll' (conj Hok' (conj _ (conj _ Hoth))))).
      * unfold model_of, model_insert. cbn. by rewrite Ho, Ho', Hc.
      * done.
    + destruct (insert_last_dll st l d nvs w o Hdll Ho Hb Hlt)
        as (st' & Hrun & Hdll' & Hfr & Hfl & Hc & Ho' & Hbrk).
      exists (Some (brk st)), st', (nvs ++ [(brk st, Some w)]).
      destruct (Hstep st' Hfr Hfl Hbrk) as [Hok' Hoth].
      refine (conj Hrun (conj Hdll' (conj Hok' (conj _ (conj _ Hoth))))).
      * unfold model_of, model_insert. cbn. by rewrite Ho, Ho', Hc, fmap_app.
      * rewrite length_app. simpl. lia.
  - exists None, (mk_state (nodes st) (lists st) (brk st) o (calls st)), nvs.
    refine (conj _ (conj _ (conj _ (conj _ (conj _ _))))).
    + rewrite insert_at_refused by (unfold malloc_fails; by rewrite Ho).
      by rewrite Ho.
    + by eapply dll_ext; [| |exact Hdll].
    + by eapply heap_ok_ext; [| | |exact Hok].
    + unfold model_of, model_insert. cbn. by rewrite Ho.
    + lia.
    + by apply others_kept_ext.
Qed.

(** ** One call against the model *)

Lemma run_call_dll st l d nvs c :
  dll st l d nvs -> heap_ok st -> Z.of_nat (length nvs) < SIZE_MAX ->
  exists st' nvs',
    run_call (Some l) c st = Some (tt, st')
    /\ dll st' l (m_destruct (model_call (model_of st d nvs) c)) nvs'
    /\ heap_ok st'
    /\ model_of st' (m_destruct (model_call (model_of st d nvs) c)) nvs'
       = model_call (model_of st d nvs) c
    /\ (length nvs' <= S (length nvs))%nat
    /\ others_kept l st st'.
Proof.
  intros Hdll Hok Hlt. pose proof Hdll as (HL & Hch & Hnd & Hsz).
  assert (Hmd : forall front v,
            m_destruct (model_insert front v (model_of st d nvs)) = d).
  { intros front [w|]; [|done]. unfold model_insert. cbn.
    by destruct (oracle st) as [|[] ?]. }
  destruct c as [v|v|v|v|i|i|i v|d']; cbn [run_call model_call].
  - destruct (insert_end_dll true st l d nvs v Hdll Hok Hlt)
      as (r & st' & nvs' & Hrun & Hdll' & Hok' & Hm & Hlen & Hoth).
    exists st', nvs'. rewrite Hmd. unfold ares__llist_insert_first.
    by rewrite (bind_eq _ _ _ _ _ Hrun).
  - destruct (insert_end_dll false st l d nvs v Hdll Hok Hlt)
      as (r & st' & nvs' & Hrun & Hdll' & Hok' & Hm & Hlen & Hoth).
    exists st', nvs'. rewrite Hmd. unfold ares__llist_insert_last.
    by rewrite (bind_eq _ _ _ _ _ Hrun).
  - unfold ares__llist_node_first. cbn [is_null].
    rewrite (bind_eq _ _ st (first_or nvs None) st)
      by (unfold list_rd; by rewrite HL).
    destruct nvs as [|[h hv] r].
    + exists st, []. cbn. split_and!; try done; [lia|apply others_kept_refl].
    + cbn [first_or m_vals model_of fmap list_fmap].
      destruct (insert_end_dll true st l d ((h, hv) :: r) v Hdll Hok Hlt)
        as (res & st' & nvs' & Hrun & Hdll' & Hok' & Hm & Hlen & Hoth).
      exists st', nvs'. rewrite Hmd.
      destruct Hch as [Hh _].
      assert (Hib : ares__llist_insert_before (Some h) v st = Some (res, st')).
      { unfold ares__llist_insert_before. cbn [is_null].
        unfold bind, node_rd. rewrite Hh. cbn [n_parent].
        by rewrite (insert_at_before_head _ _ _ h _ HL). }
      by rewrite (bind_eq _ _ _ _ _ Hib).
  - unfold ares__llist_node_last. cbn [is_null].
    rewrite (bind_eq _ _ st (last_or nvs None) st)
      by (unfold list_rd; by rewrite HL).
    destruct nvs as [|[t tv] xs _] using rev_ind.
    + exists st, []. cbn. split_and!; try done; [lia|apply others_kept_refl].
    + rewrite last_or_snoc.
      replace (m_vals (model_of st d (xs ++ [(t, tv)])))
        with (xs.*2 ++ [tv]) by (by cbn; rewrite fmap_app).
      destruct (xs.*2 ++ [tv]) as [|? ?] eqn:E; [by destruct (xs.*2)|]. clear E.
      destruct (insert_end_dll false st l d (xs ++ [(t, tv)]) v Hdll Hok Hlt)
        as (res & st' & nvs' & Hrun & Hdll' & Hok' & Hm & Hlen & Hoth).
      exists st', nvs'. rewrite Hmd.
      apply chain_app in Hch as [_ [Ht _]].
      assert (Hia : ares__llist_insert_after (Some t) v st = Some (res, st')).
      { unfold ares__llist_insert_after. cbn [is_null].
        unfold bind, node_rd. rewrite Ht. cbn [n_next is_null n_parent first_or].
        rewrite Ht. exact Hrun. }
      by rewrite (bind_eq _ _ _ _ _ Hia).
  - rewrite (bind_eq _ _ _ _ _ (nth_node_dll _ _ _ _ i Hdll)).
    destruct (nvs !! i) as [[n v]|] eqn:E; cbn.
    + pose proof Hdll as Hdll0. rewrite <- (take_drop_middle _ _ _ E) in Hdll.
      destruct (claim_dll _ _ _ _ _ _ _ Hdll)
        as (st' & Hrun & Hdll' & Hgone & Hfr & Hfl & Hc & Hb & Ho).
      rewrite <- delete_take_drop in Hdll'.
      exists st', (delete i nvs). rewrite (bind_eq _ _ _ _ _ Hrun).
      rewrite (take_drop_middle _ _ _ E) in Hfr.
      refine (conj eq_refl (conj Hdll' (conj _ (conj _ (conj _ _))))); cycle 3.
      { intros l2 d2 nvs2 Hne H2.
        eapply (dll_other st st' l d nvs nvs.*1); try done. intros m Hm. by left. }
      * eapply (heap_ok_step st st' l d nvs nvs.*1); try done.
        -- rewrite Hb. lia.
        -- intros m Hm. rewrite Hb. by eapply dll_live_lt.
      * unfold model_of. by rewrite Hc, Ho, list_fmap_delete.
      * rewrite length_delete by eauto. lia.
    + exists st, nvs. apply lookup_ge_None in E.
      assert (Hdel : delete i nvs.*2 = nvs.*2).
      { rewrite delete_take_drop, take_ge, drop_ge, app_nil_r;
          rewrite ?length_fmap; (done || lia). }
      unfold model_of. cbn. rewrite Hdel.
      split_and!; try done; [lia|apply others_kept_refl].
  - rewrite (bind_eq _ _ _ _ _ (nth_node_dll _ _ _ _ i Hdll)).
    cbn [m_vals model_of m_destruct]. rewrite list_lookup_fmap.
    destruct (nvs !! i) as [[n v]|] eqn:E; cbn [fmap option_fmap option_map fst snd].
    + pose proof Hdll as Hdll0. rewrite <- (take_drop_middle _ _ _ E) in Hdll.
      destruct (node_destroy_dll _ _ _ _ _ _ _ Hdll)
        as (st' & Hrun & Hdll' & Hgone & Hfr & Hfl & Hc & Hb & Ho).
      rewrite <- delete_take_drop in Hdll'.
      exists st', (delete i nvs). rewrite Hrun.
      rewrite (take_drop_middle _ _ _ E) in Hfr.
      refine (conj eq_refl (conj Hdll' (conj _ (conj _ (conj _ _))))); cycle 3.
      { intros l2 d2 nvs2 Hne H2.
        eapply (dll_other st st' l d nvs nvs.*1); try done. intros m Hm. by left. }
      * eapply (heap_ok_step st st' l d nvs nvs.*1); try done.
        -- rewrite Hb. lia.
        -- intros m Hm. rewrite Hb. by eapply dll_live_lt.
      * unfold model_of. rewrite Hc, Ho, list_fmap_delete. by destruct v, d.
      * rewrite length_delete by eauto. lia.
    + exists st, nvs. apply lookup_ge_None in E.
      assert (Hdel : delete i nvs.*2 = nvs.*2).
      { rewrite delete_take_drop, take_ge, drop_ge, app_nil_r;
          rewrite ?length_fmap; (done || lia). }
      unfold model_of. cbn. rewrite Hdel, app_nil_r.
      split_and!; try done; [lia|apply others_kept_refl].
  - rewrite (bind_eq _ _ _ _ _ (nth_node_dll _ _ _ _ i Hdll)).
    cbn [m_vals model_of]. rewrite list_lookup_fmap.
    destruct (nvs !! i) as [[n old]|] eqn:E; cbn [fmap option_fmap option_map fst snd].
    + pose proof Hdll as Hdll0. rewrite <- (take_drop_middle _ _ _ E) in Hdll.
      destruct (node_replace_dll _ _ _ _ _ _ _ v Hdll)
        as (st' & Hrun & Hdll' & Hfr & Hfl & Hc & Hb & Ho).
      assert (Hins : take i nvs ++ (n, v) :: drop (S i) nvs = <[i := (n, v)]> nvs).
      { symmetry. apply insert_take_drop. by eapply lookup_lt_Some. }
      rewrite Hins in Hdll'.
      exists st', (<[i := (n, v)]> nvs). rewrite Hrun.
      assert (Hnin : n ∈ nvs.*1).
      { apply list_elem_of_fmap. exists (n, old). split; [done|].
        by eapply list_elem_of_lookup_2. }
      refine (conj eq_refl (conj Hdll' (conj _ (conj _ (conj _ _))))); cycle 3.
      { intros l2 d2 nvs2 Hne H2.
        eapply (dll_other st st' l d nvs [n]); try done.
        - intros m Hm. apply Hfr. intros ->. apply Hm. left.
        - intros m ->%list_elem_of_singleton. by left.
        - intros l' _. by rewrite Hfl. }
      * eapply (heap_ok_step st st' l d nvs [n]); try done.
        -- rewrite Hb. lia.
        -- intros m Hm. apply Hfr. intros ->. apply Hm. left.
        -- intros m ->%list_elem_of_singleton. rewrite Hb.
           eapply dll_live_lt; [done..|].
           apply list_elem_of_fmap. exists (n, old). split; [done|].
           by eapply list_elem_of_lookup_2.
        -- intros l' _. by rewrite Hfl.
      * unfold model_of. by rewrite Hc, Ho, list_fmap_insert.
      * rewrite length_insert. lia.
    + exists st, nvs. split_and!; try done; [lia|apply others_kept_refl].
  - destruct (replace_destructor_dll st l d nvs d' Hdll)
      as (st' & Hrun & Hdll' & Hn & Hfl & Hc & Hb & Ho).
    exists st', nvs. rewrite Hrun. cbn.
    refine (conj eq_refl (conj Hdll' (conj _ (conj _ (conj _ _))))); cycle 3.
    { intros l2 d2 nvs2 Hne H2.
      eapply (dll_other st st' l d nvs []); try done.
      - intros m _. by rewrite Hn.
      - intros m Hm. by apply elem_of_nil in Hm. }
    + eapply (heap_ok_step st st' l d nvs []); try done.
      * rewrite Hb. lia.
      * intros m _. by rewrite Hn.
      * intros m Hm. by apply elem_of_nil in Hm.
    + unfold model_of. by rewrite Hc, Ho.
    + lia.
Qed.

Lemma run_calls_dll l cs : forall st d nvs,
  dll st l d nvs -> heap_ok st ->
  Z.of_nat (length nvs + length cs) <= SIZE_MAX ->
  exists st' nvs',
    run_calls (Some l) cs st = Some (tt, st')
    /\ dll st' l (m_destruct (foldl model_call (model_of st d nvs) cs)) nvs'
    /\ heap_ok st'
    /\ model_of st' (m_destruct (foldl model_call (model_of st d nvs) cs)) nvs'
       = foldl model_call (model_of st d nvs) cs
    /\ others_kept l st st'.
Proof.
  induction cs as [|c cs IH]; intros st d nvs Hdll Hok Hlen.
  - exists st, nvs. cbn. split_and!; try done. apply others_kept_refl.
  - cbn [length] in Hlen.
    destruct (run_call_dll st l d nvs c Hdll Hok ltac:(lia))
      as (st1 & nvs1 & Hrun & Hdll1 & Hok1 & Hm1 & Hlen1 & Hoth1).
    destruct (IH st1 _ nvs1 Hdll1 Hok1 ltac:(lia))
      as (st2 & nvs2 & Hrun2 & Hdll2 & Hok2 & Hm2 & Hoth2).
    exists st2, nvs2. cbn [run_calls foldl].
    rewrite (bind_eq _ _ _ _ _ Hrun). rewrite <- Hm1.
    split_and!; try done. by eapply others_kept_trans.
Qed.


(** ** Reading a list by walking it *)

Lemma collect_dll st l d nvs k : forall i,
  dll st l d nvs ->
  collect k (fst <$> nvs !! i) st = Some (take k (drop i nvs.*2), st).
Proof.
  induction k as [|k IH]; intros i Hdll; cbn [collect take]; [done|].
  destruct (nvs !! i) as [[n v]|] eqn:E; cbn [fmap option_fmap option_map fst is_null].
  - unfold ares__llist_node_val. cbn [is_null].
    rewrite (bind_eq _ _ st v st)
      by (unfold node_rd; by rewrite (dll_lookup _ _ _ _ _ _ _ Hdll E)).
    pose proof (node_next_dll st l d nvs i Hdll) as Hnx. rewrite E in Hnx.
    rewrite (bind_eq _ _ _ _ _ Hnx).
    rewrite (bind_eq _ _ _ _ _ (IH (S i) Hdll)). unfold ret.
    assert (E2 : nvs.*2 !! i = Some v) by (by rewrite list_lookup_fmap, E).
    by rewrite (drop_S _ _ _ E2).
  - apply lookup_ge_None in E.
    rewrite drop_ge by (rewrite length_fmap; lia). done.
Qed.

Lemma list_values_dll st l d nvs :
  dll st l d nvs -> list_values (Some l) st = Some (nvs.*2, st).
Proof.
  intros Hdll. pose proof Hdll as (HL & _).
  unfold list_values, ares__llist_len, ares__llist_node_first. cbn [is_null].
  rewrite (bind_eq _ _ st (Z.of_nat (length nvs)) st)
    by (unfold list_rd; by rewrite HL).
  rewrite (bind_eq _ _ st (fst <$> nvs !! 0%nat) st)
    by (unfold list_rd; rewrite HL; cbn; by rewrite <- first_or_drop).
  rewrite (collect_dll st l d nvs _ 0%nat Hdll), Nat2Z.id.
  rewrite drop_0, take_ge by (rewrite length_fmap; lia). done.
Qed.

(** [heap_ok] on a concrete state, by evaluation. *)
Ltac solve_heap_ok :=
  split; apply (bool_decide_unpack _); vm_compute; exact I.

(** X1.  [create(d)] when the allocator grants the block: the result is
    a new list, empty ([len] 0, no first or last node, null first and
    last values) and well-linked, with destructor [d]; no node and no
    other list is touched and no destructor is called.  When the
    allocator refuses: the result is null and no list or node changes. *)
Theorem X1_create_empty_list st d :
  heap_ok st ->
  (forall o, oracle st = true :: o ->
     exists st',
       ares__llist_create d st = Some (Some (brk st), st')
       /\ dll st' (brk st) d []
       /\ ares__llist_len (Some (brk st)) st' = Some (0, st')
       /\ ares__llist_node_first (Some (brk st)) st' = Some (None, st')
       /\ ares__llist_node_last (Some (brk st)) st' = Some (None, st')
       /\ ares__llist_first_val (Some (brk st)) st' = Some (None, st')
       /\ ares__llist_last_val (Some (brk st)) st' = Some (None, st')
       /\ heap_ok st'
       /\ nodes st' = nodes st
       /\ (forall l', l' <> brk st -> lists st' !! l' = lists st !! l')
       /\ calls st' = calls st)
  /\ (malloc_fails st = true ->
      exists st', ares__llist_create d st = Some (None, st')
                  /\ nodes st' = nodes st /\ lists st' = lists st
                  /\ calls st' = calls st /\ brk st' = brk st).
Proof.
  intros [Hn Hl]. split.
  - intros o Ho. unfold ares__llist_create, ares_malloc. exec_unfold. rewrite Ho.
    cbn. repeat exec_step. eexists; split; [reflexivity|].
    unfold dll, ares__llist_len, ares__llist_node_first, ares__llist_node_last,
      ares__llist_first_val, ares__llist_last_val. exec.
    split_and!; try done.
    + apply NoDup_nil_2.
    + split; cbn.
      * eapply map_Forall_impl; [exact Hn|]. intros a N Ha. cbn in Ha. lia.
      * apply map_Forall_lookup. intros a L Ha.
        destruct (decide (a = brk st)) as [->|Hne]; [lia|].
        rewrite !lookup_insert_ne in Ha by done.
        apply (map_Forall_lookup_1 _ _ _ _ Hl) in Ha. lia.
    + intros l' Hl'. by rewrite !lookup_insert_ne.
  - unfold malloc_fails, ares__llist_create, ares_malloc, bind.
    destruct (oracle st) as [|[] o]; [|done|]; intros _; cbn; eauto 10.
Qed.

Lemma X1_witness :
  exists st',
    ares__llist_create (Some 7%positive) st_init = Some (Some 1%positive, st')
    /\ dll st' 1 (Some 7%positive) []
    /\ ares__llist_len (Some 1%positive) st' = Some (0, st').
Proof.
  destruct (X1_create_empty_list st_init (Some 7%positive)) as [Hs _].
  { solve_heap_ok. }
  destruct (Hs (repeat true 7) eq_refl) as (st' & Hrun & Hdll & Hlen & _).
  exists st'. exact (conj Hrun (conj Hdll Hlen)).
Defined.

(** X2.  [insert_first(list, v)] with a non-null [v] on a well-linked
    list, when the allocator grants the node: the new node is returned
    and is the new head, in front of the old nodes in their old order;
    [len] grows by one; the walk from the head reads [v] and then the old
    values; no destructor is called and other lists are left alone. *)
Theorem X2_insert_first_prepends st l d nvs w o :
  dll st l d nvs -> heap_ok st -> oracle st = true :: o ->
  Z.of_nat (length nvs) < SIZE_MAX ->
  exists st',
    ares__llist_insert_first (Some l) (Some w) st = Some (Some (brk st), st')
    /\ dll st' l d ((brk st, Some w) :: nvs)
    /\ ares__llist_node_first (Some l) st' = Some (Some (brk st), st')
    /\ ares__llist_len (Some l) st' = Some (Z.of_nat (length nvs) + 1, st')
    /\ list_values (Some l) st' = Some (Some w :: nvs.*2, st')
    /\ calls st' = calls st
    /\ heap_ok st' /\ others_kept l st st'.
Proof.
  intros Hdll Hok Ho Hlt.
  destruct (insert_first_dll st l d nvs w o Hdll Ho (heap_ok_fresh _ Hok) Hlt)
    as (st' & Hrun & Hdll' & _ & _ & Hc & _).
  destruct (insert_end_dll true st l d nvs (Some w) Hdll Hok Hlt)
    as (r & st2 & nvs2 & Hrun2 & _ & Hok2 & _ & _ & Hoth).
  unfold ares__llist_insert_first in Hrun. rewrite Hrun in Hrun2.
  injection Hrun2 as _ <-.
  exists st'. split; [exact Hrun|]. split; [exact Hdll'|].
  pose proof Hdll' as (HL' & _).
  split_and!; try done.
  - unfold ares__llist_node_first, list_rd. cbn [is_null]. by rewrite HL'.
  - unfold ares__llist_len, list_rd. cbn [is_null]. rewrite HL'. cbn [l_cnt length].
    do 2 f_equal. lia.
  - by rewrite (list_values_dll _ _ _ _ Hdll').
Qed.

Lemma X2_witness :
  exists st',
    ares__llist_insert_first (Some 1%positive) (Some 9%positive) (st_123 None)
    = Some (Some 5%positive, st')
    /\ list_values (Some 1%positive) st'
       = Some ([Some 9%positive; val 1; val 2; val 3], st').
Proof.
  destruct (X2_insert_first_prepends (st_123 None) 1 None
              [(2%positive, val 1); (3%positive, val 2); (4%positive, val 3)]
              9 (repeat true 3))
    as (st' & Hrun & _ & _ & _ & Hvals & _).
  - solve_dll.
  - solve_heap_ok.
  - vm_compute. reflexivity.
  - vm_compute. reflexivity.
  - exists st'. exact (conj Hrun Hvals).
Defined.

(** X3.  [insert_last(list, v)] with a non-null [v] on a well-linked
    list, when the allocator grants the node: the new node is returned
    and is the new tail, behind the old nodes in their old order; [len]
    grows by one; the walk from the head reads the old values and then
    [v]; no destructor is called and other lists are left alone. *)
Theorem X3_insert_last_appends st l d nvs w o :
  dll st l d nvs -> heap_ok st -> oracle st = true :: o ->
  Z.of_nat (length nvs) < SIZE_MAX ->
  exists st',
    ares__llist_insert_last (Some l) (Some w) st = Some (Some (brk st), st')
    /\ dll st' l d (nvs ++ [(brk st, Some w)])
    /\ ares__llist_node_last (Some l) st' = Some (Some (brk st), st')
    /\ ares__llist_len (Some l) st' = Some (Z.of_nat (length nvs) + 1, st')
    /\ list_values (Some l) st' = Some (nvs.*2 ++ [Some w], st')
    /\ calls st' = calls st
    /\ heap_ok st' /\ others_kept l st st'.
Proof.
  intros Hdll Hok Ho Hlt.
  destruct (insert_last_dll st l d nvs w o Hdll Ho (heap_ok_fresh _ Hok) Hlt)
    as (st' & Hrun & Hdll' & _ & _ & Hc & _).
  destruct (insert_end_dll false st l d nvs (Some w) Hdll Hok Hlt)
    as (r & st2 & nvs2 & Hrun2 & _ & Hok2 & _ & _ & Hoth).
  unfold ares__llist_insert_last in Hrun. rewrite Hrun in Hrun2.
  injection Hrun2 as _ <-.
  exists st'. split; [exact Hrun|]. split; [exact Hdll'|].
  pose proof Hdll' as (HL' & _).
  split_and!; try done.
  - unfold ares__llist_node_last, list_rd. cbn [is_null]. rewrite HL'.
    cbn [l_tail]. by rewrite last_or_snoc.
  - unfold ares__llist_len, list_rd. cbn [is_null]. rewrite HL'. cbn [l_cnt].
    do 2 f_equal. rewrite length_app. simpl. lia.
  - by rewrite (list_values_dll _ _ _ _ Hdll'), fmap_app.
Qed.

Lemma X3_witness :
  exists st',
    ares__llist_insert_last (Some 1%positive) (Some 9%positive) (st_123 None)
    = Some (Some 5%positive, st')
    /\ list_values (Some 1%positive) st'
       = Some ([val 1; val 2; val 3; Some 9%positive], st').
Proof.
  destruct (X3_insert_last_appends (st_123 None) 1 None
              [(2%positive, val 1); (3%positive, val 2); (4%positive, val 3)]
              9 (repeat true 3))
    as (st' & Hrun & _ & _ & _ & Hvals & _).
  - solve_dll.
  - solve_heap_ok.
  - vm_compute. reflexivity.
  - vm_compute. reflexivity.
  - exists st'. exact (conj Hrun Hvals).
Defined.

(** X4.  [insert_before(n, v)] with a non-null [v] on a node [n] of a
    well-linked list that has a predecessor [p], when the allocator
    grants the node: the new node is returned; it holds [v], belongs to
    the list, has [n] as its next and [p] as its previous node, and [n]'s
    previous node is the new node; [len] grows by one and the head is
    unchanged. *)
Theorem X4_insert_before_links_new_node st l d xs p pv n v ys w o :
  dll st l d (xs ++ (p, pv) :: (n, v) :: ys) -> heap_ok st ->
  oracle st = true :: o ->
  Z.of_nat (length (xs ++ (p, pv) :: (n, v) :: ys)) < SIZE_MAX ->
  exists st',
    ares__llist_insert_before (Some n) (Some w) st = Some (Some (brk st), st')
    /\ ares__llist_node_val (Some (brk st)) st' = Some (Some w, st')
    /\ ares__llist_node_parent (Some (brk st)) st' = Some (Some l, st')
    /\ ares__llist_node_next (Some (brk st)) st' = Some (Some n, st')
    /\ ares__llist_node_prev (Some (brk st)) st' = Some (Some p, st')
    /\ ares__llist_node_prev (Some n) st' = Some (Some (brk st), st')
    /\ ares__llist_len (Some l) st'
       = Some (Z.of_nat (length (xs ++ (p, pv) :: (n, v) :: ys)) + 1, st')
    /\ ares__llist_node_first (Some l) st'
       = Some (first_or (xs ++ [(p, pv)]) None, st').
Proof.
  intros Hdll Hok Ho Hlt.
  destruct (insert_before_mid _ _ _ _ _ _ _ _ _ w o Hdll Ho (heap_ok_fresh _ Hok))
    as (st' & Hrun & Hnew & Hn' & _ & Hlen & Hfirst).
  assert (Hincr : size_incr (Z.of_nat (length (xs ++ (p, pv) :: (n, v) :: ys)))
                  = Z.of_nat (length (xs ++ (p, pv) :: (n, v) :: ys)) + 1).
  { unfold size_incr, SIZE_MAX in *. rewrite Z.mod_small; lia. }
  exists st'. split; [exact Hrun|]. rewrite Hlen, Hfirst, Hincr.
  unfold ares__llist_node_val, ares__llist_node_parent, ares__llist_node_next,
    ares__llist_node_prev, node_rd. cbn [is_null]. rewrite Hnew, Hn'.
  by split_and!.
Qed.

Lemma X4_witness :
  exists st',
    ares__llist_insert_before (Some 3%positive) (Some 9%positive) (st_123 None)
    = Some (Some 5%positive, st')
    /\ ares__llist_node_prev (Some 3%positive) st' = Some (Some 5%positive, st')
    /\ ares__llist_node_prev (Some 5%positive) st' = Some (Some 2%positive, st').
Proof.
  destruct (X4_insert_before_links_new_node (st_123 None) 1 None
              [] 2 (val 1) 3 (val 2) [(4%positive, val 3)] 9 (repeat true 3))
    as (st' & Hrun & _ & _ & _ & Hp & Hn & _).
  - solve_dll.
  - solve_heap_ok.
  - vm_compute. reflexivity.
  - vm_compute. reflexivity.
  - exists st'. exact (conj Hrun (conj Hn Hp)).
Defined.

(** X5.  On a live node [n] whose next node [nx] is live and has the same
    parent, [insert_after(n, v)] is [insert_before(nx, v)]: same result,
    same state, for every value and every answer of the allocator. *)
Theorem X5_insert_after_is_insert_before_next st n N nx NX v :
  nodes st !! n = Some N -> n_next N = Some nx ->
  nodes st !! nx = Some NX -> n_parent NX = n_parent N ->
  ares__llist_insert_after (Some n) v st = ares__llist_insert_before (Some nx) v st.
Proof.
  intros HN Hnx HNX Hp.
  unfold ares__llist_insert_after, ares__llist_insert_before. cbn [is_null].
  unfold bind, node_rd.
  do 3 (rewrite ?HN, ?HNX; cbv beta iota; rewrite ?Hnx; cbn [is_null]).
  by rewrite Hp.
Qed.

Lemma X5_witness :
  ares__llist_insert_after (Some 2%positive) (val 9) (st_123 None)
  = ares__llist_insert_before (Some 3%positive) (val 9) (st_123 None).
Proof.
  apply (X5_insert_after_is_insert_before_next (st_123 None) 2
           (mk_node (val 1) None (Some 3%positive) (Some 1%positive)) 3
           (mk_node (val 2) (Some 2%positive) (Some 4%positive) (Some 1%positive)));
    vm_compute; reflexivity.
Defined.

(** X6.  The accessors on the node at position [i] of a well-linked
    list: [node_val] is its value, [node_parent] the list, [node_next] the
    node at position [i + 1] (null for the last node), [node_prev] the
    node at position [i - 1] (null for the first node); and when
    [node_next] gives a node, [node_prev] of that node gives the node
    back. *)
Theorem X6_node_accessors st l d nvs i n v :
  dll st l d nvs -> nvs !! i = Some (n, v) ->
  ares__llist_node_val (Some n) st = Some (v, st)
  /\ ares__llist_node_parent (Some n) st = Some (Some l, st)
  /\ ares__llist_node_next (Some n) st = Some (fst <$> nvs !! S i, st)
  /\ ares__llist_node_prev (Some n) st
     = Some (match i with O => None | S j => fst <$> nvs !! j end, st)
  /\ (forall m, ares__llist_node_next (Some n) st = Some (Some m, st) ->
                ares__llist_node_prev (Some m) st = Some (Some n, st)).
Proof.
  intros Hdll Hi. pose proof (dll_lookup _ _ _ _ _ _ _ Hdll Hi) as Hn.
  unfold ares__llist_node_val, ares__llist_node_parent, ares__llist_node_next,
    ares__llist_node_prev, node_rd. cbn [is_null]. rewrite Hn. cbn.
  split_and!; try done.
  intros m [= Hm]. destruct (nvs !! S i) as [[m' w]|] eqn:E; [|done].
  injection Hm as ->. rewrite (dll_lookup _ _ _ _ _ _ _ Hdll E). cbn.
  by rewrite Hi.
Qed.

Lemma X6_witness :
  ares__llist_node_val (Some 3%positive) (st_123 None) = Some (val 2, st_123 None)
  /\ ares__llist_node_next (Some 3%positive) (st_123 None)
     = Some (Some 4%positive, st_123 None)
  /\ ares__llist_node_prev (Some 3%positive) (st_123 None)
     = Some (Some 2%positive, st_123 None).
Proof.
  destruct (X6_node_accessors (st_123 None) 1 None
              [(2%positive, val 1); (3%positive, val 2); (4%positive, val 3)]
              1 3 (val 2))
    as (Hv & _ & Hn & Hp & _).
  - solve_dll.
  - reflexivity.
  - exact (conj Hv (conj Hn Hp)).
Defined.

Lemma walk_len_dll st l d nvs :
  dll st l d nvs ->
  list_values (Some l) st = Some (nvs.*2, st)
  /\ ares__llist_len (Some l) st = Some (Z.of_nat (length nvs), st)
  /\ ares__llist_len (Some l) st = Some (Z.of_nat (length (reachable st l)), st).
Proof.
  intros Hdll. split; [by apply (list_values_dll _ _ d)|].
  rewrite (len_reachable_dll _ _ _ _ Hdll), (reachable_dll _ _ _ _ Hdll).
  by rewrite length_fmap.
Qed.

(** X7.  On a well-linked list the loop from [node_first] along
    [node_next] reads the values of the nodes in order and stops at the
    end, [len] is the number of nodes, and the nodes reachable from the
    head along [next] are the nodes of the list. *)
Theorem X7_walk_reads_all_values st l d nvs :
  dll st l d nvs ->
  list_values (Some l) st = Some (nvs.*2, st)
  /\ ares__llist_len (Some l) st = Some (Z.of_nat (length nvs), st)
  /\ reachable st l = nvs.*1
  /\ ares__llist_len (Some l) st = Some (Z.of_nat (length (reachable st l)), st).
Proof.
  intros Hdll. split; [by apply (list_values_dll _ _ d)|].
  rewrite (len_reachable_dll _ _ _ _ Hdll), (reachable_dll _ _ _ _ Hdll).
  by rewrite length_fmap.
Qed.

Lemma X7_witness :
  list_values (Some 1%positive) (st_123 None)
  = Some ([val 1; val 2; val 3], st_123 None)
  /\ ares__llist_len (Some 1%positive) (st_123 None) = Some (3, st_123 None).
Proof.
  destruct (X7_walk_reads_all_values (st_123 None) 1 None
              [(2%positive, val 1); (3%positive, val 2); (4%positive, val 3)])
    as (Hv & Hl & _).
  - solve_dll.
  - exact (conj Hv Hl).
Defined.

(** X8.  On a well-linked list, [i] calls of [node_next] from
    [node_first] give the node at position [i] from the head, and [i]
    calls of [node_prev] from [node_last] give the node at position [i]
    from the tail; past the end both give null. *)
Theorem X8_walk_reaches_position st l d nvs i :
  dll st l d nvs ->
  nth_node (Some l) i st = Some (fst <$> nvs !! i, st)
  /\ nth_node_back (Some l) i st = Some (fst <$> reverse nvs !! i, st)
  /\ ((length nvs <= i)%nat ->
      nth_node (Some l) i st = Some (None, st)
      /\ nth_node_back (Some l) i st = Some (None, st)).
Proof.
  intros Hdll.
  rewrite (nth_node_dll _ _ _ _ i Hdll), (nth_node_back_dll _ _ _ _ i Hdll).
  split_and!; try done. intros Hi.
  rewrite (lookup_ge_None_2 nvs), (lookup_ge_None_2 (reverse nvs)); try done.
  by rewrite length_reverse.
Qed.

Lemma X8_witness :
  nth_node (Some 1%positive) 2 (st_123 None) = Some (Some 4%positive, st_123 None)
  /\ nth_node_back (Some 1%positive) 2 (st_123 None)
     = Some (Some 2%positive, st_123 None).
Proof.
  destruct (X8_walk_reaches_position (st_123 None) 1 None
              [(2%positive, val 1); (3%positive, val 2); (4%positive, val 3)] 2)
    as (Hf & Hb & _).
  - solve_dll.
  - exact (conj Hf Hb).
Defined.

(** X9.  On a well-linked list [first_val] is the value of the first node
    and [last_val] the value of the last node; both are null on an empty
    list. *)
Theorem X9_first_last_val st l d nvs :
  dll st l d nvs ->
  ares__llist_first_val (Some l) st = Some (head nvs ≫= snd, st)
  /\ ares__llist_last_val (Some l) st = Some (last nvs ≫= snd, st)
  /\ (nvs = [] ->
      ares__llist_first_val (Some l) st = Some (None, st)
      /\ ares__llist_last_val (Some l) st = Some (None, st)).
Proof.
  intros Hdll. destruct (first_last_val_dll _ _ _ _ Hdll) as [Hf Hl].
  split_and!; try done. intros ->. by rewrite Hf, Hl.
Qed.

Lemma X9_witness :
  ares__llist_first_val (Some 1%positive) (st_123 None)
  = Some (val 1, st_123 None)
  /\ ares__llist_last_val (Some 1%positive) (st_123 None)
     = Some (val 3, st_123 None).
Proof.
  destruct (X9_first_last_val (st_123 None) 1 None
              [(2%positive, val 1); (3%positive, val 2); (4%positive, val 3)])
    as (Hf & Hl & _).
  - solve_dll.
  - exact (conj Hf Hl).
Defined.

(** X10.  [replace(n, v')] on a node holding [v] of a well-linked list:
    the list's destructor, when set, is called once on [v] (whatever [v]
    is, null included); the node then holds [v']; its position, the links,
    the count, every other node and every list are unchanged. *)
Theorem X10_replace_value_in_place st l d xs n v ys v' :
  dll st l d (xs ++ (n, v) :: ys) ->
  exists st',
    ares__llist_node_replace (Some n) v' st = Some (tt, st')
    /\ dll st' l d (xs ++ (n, v') :: ys)
    /\ ares__llist_node_val (Some n) st' = Some (v', st')
    /\ ares__llist_len (Some l) st'
       = Some (Z.of_nat (length (xs ++ (n, v) :: ys)), st')
    /\ calls st' = calls st ++ match d with Some f => [(f, v)] | None => [] end
    /\ (forall m, m <> n -> nodes st' !! m = nodes st !! m)
    /\ lists st' = lists st.
Proof.
  intros Hdll.
  destruct (node_replace_dll _ _ _ _ _ _ _ v' Hdll)
    as (st' & Hrun & Hdll' & Hfr & Hfl & Hc & _).
  exists st'. split; [exact Hrun|]. split; [exact Hdll'|].
  pose proof Hdll' as (HL' & Hch' & _).
  apply chain_app in Hch' as [_ [Hn' _]].
  split_and!; try done.
  - unfold ares__llist_node_val, node_rd. cbn [is_null]. by rewrite Hn'.
  - unfold ares__llist_len, list_rd. cbn [is_null]. rewrite HL'. cbn [l_cnt].
    by rewrite !length_app.
Qed.

Lemma X10_witness :
  exists st',
    ares__llist_node_replace (Some 3%positive) (val 9) (st_123 (Some 7%positive))
    = Some (tt, st')
    /\ ares__llist_node_val (Some 3%positive) st' = Some (val 9, st')
    /\ calls st' = calls (st_123 (Some 7%positive)) ++ [(7%positive, val 2)].
Proof.
  destruct (X10_replace_value_in_place (st_123 (Some 7%positive)) 1 (Some 7%positive)
              [(2%positive, val 1)] 3 (val 2) [(4%positive, val 3)] (val 9))
    as (st' & Hrun & _ & Hv & _ & Hc & _).
  - solve_dll.
  - exists st'. exact (conj Hrun (conj Hv Hc)).
Defined.

(** X11.  [replace_destructor(list, d')] on a well-linked list calls
    nothing and changes nothing but the destructor; a [destroy(list)]
    that follows frees every node and the list and calls [d'], not the
    old destructor, on the non-null values from head to tail: with a null
    [d'] it calls nothing. *)
Theorem X11_replace_destructor_governs_destroy st l d nvs d' :
  dll st l d nvs ->
  (exists st1,
     ares__llist_replace_destructor (Some l) d' st = Some (tt, st1)
     /\ dll st1 l d' nvs /\ nodes st1 = nodes st /\ calls st1 = calls st)
  /\ (exists st',
        (ares__llist_replace_destructor (Some l) d' ;;
         ares__llist_destroy (Some l)) st = Some (tt, st')
        /\ calls st' = calls st ++ destructor_calls d' nvs
        /\ (d' = None -> calls st' = calls st)
        /\ lists st' !! l = None
        /\ (forall n, n ∈ nvs.*1 -> nodes st' !! n = None)).
Proof.
  intros Hdll.
  destruct (replace_destructor_dll st l d nvs d' Hdll)
    as (st1 & Hrun1 & Hdll1 & Hn1 & _ & Hc1 & _).
  split; [by exists st1|].
  destruct (destroy_dll _ _ _ _ Hdll1) as (st' & Hrun & Hgone & Hnodes & _ & _ & Hc).
  exists st'. rewrite (bind_eq _ _ _ _ _ Hrun1). split; [exact Hrun|].
  rewrite Hc, Hc1. split_and!; try done.
  intros ->. by rewrite app_nil_r.
Qed.

Lemma X11_witness :
  exists st',
    (ares__llist_replace_destructor (Some 1%positive) None ;;
     ares__llist_destroy (Some 1%positive)) (st_123 (Some 7%positive))
    = Some (tt, st')
    /\ calls st' = calls (st_123 (Some 7%positive)).
Proof.
  destruct (X11_replace_destructor_governs_destroy (st_123 (Some 7%positive)) 1
              (Some 7%positive)
              [(2%positive, val 1); (3%positive, val 2); (4%positive, val 3)] None)
    as (_ & st' & Hrun & _ & Hc & _).
  - solve_dll.
  - exists st'. exact (conj Hrun (Hc eq_refl)).
Defined.

(** Two states in which the same nodes make the same well-linked list,
    and which agree everywhere else, have the same stores. *)
Lemma dll_same_store st st2 l d nvs b :
  dll st l d nvs -> dll st2 l d nvs ->
  nodes st !! b = None -> nodes st2 !! b = None ->
  (forall m, m ∉ b :: nvs.*1 -> nodes st2 !! m = nodes st !! m) ->
  (forall l', l' <> l -> lists st2 !! l' = lists st !! l') ->
  nodes st2 = nodes st /\ lists st2 = lists st.
Proof.
  intros Hdll Hdll2 Hb Hb2 Hfr Hfl. split; apply map_eq.
  - intros m. destruct (decide (m = b)) as [->|Hmb]; [by rewrite Hb, Hb2|].
    destruct (decide (m ∈ nvs.*1)) as [Hin|Hin].
    + apply list_elem_of_fmap in Hin as ([m' v] & -> & Hin).
      apply list_elem_of_lookup in Hin as [i Hi]. cbn [fst].
      by rewrite (dll_lookup _ _ _ _ _ _ _ Hdll Hi),
                 (dll_lookup _ _ _ _ _ _ _ Hdll2 Hi).
    + apply Hfr. by apply not_elem_of_cons.
  - intros l'. destruct (decide (l' = l)) as [->|Hne]; [|by apply Hfl].
    destruct Hdll as (-> & _), Hdll2 as (-> & _). done.
Qed.

(** X12.  On a well-linked list, [insert_first] (or [insert_last]) of a
    non-null value followed by [claim] of the returned node gives the
    value back and leaves every node and every list exactly as before,
    with no destructor call. *)
Theorem X12_insert_then_claim_restores st l d nvs w o :
  dll st l d nvs -> heap_ok st -> oracle st = true :: o ->
  Z.of_nat (length nvs) < SIZE_MAX ->
  (exists st',
     (let* n := ares__llist_insert_first (Some l) (Some w) in
      ares__llist_node_claim n) st = Some (Some w, st')
     /\ nodes st' = nodes st /\ lists st' = lists st /\ calls st' = calls st)
  /\ (exists st',
        (let* n := ares__llist_insert_last (Some l) (Some w) in
         ares__llist_node_claim n) st = Some (Some w, st')
        /\ nodes st' = nodes st /\ lists st' = lists st /\ calls st' = calls st).
Proof.
  intros Hdll Hok Ho Hlt. pose proof (heap_ok_fresh _ Hok) as Hb. split.
  - destruct (insert_first_dll st l d nvs w o Hdll Ho Hb Hlt)
      as (st1 & Hrun1 & Hdll1 & Hfr1 & Hfl1 & Hc1 & _).
    destruct (claim_dll st1 l d [] (brk st) (Some w) nvs Hdll1)
      as (st2 & Hrun2 & Hdll2 & Hgone & Hfr2 & Hfl2 & Hc2 & _).
    exists st2. rewrite (bind_eq _ _ _ _ _ Hrun1). split; [exact Hrun2|].
    destruct (dll_same_store st st2 l d nvs (brk st)) as [Hn Hl]; try done.
    + intros m Hm. rewrite Hfr2 by done. by apply Hfr1.
    + intros l' Hl'. rewrite Hfl2 by done. by apply Hfl1.
    + split_and!; try done. congruence.
  - destruct (insert_last_dll st l d nvs w o Hdll Ho Hb Hlt)
      as (st1 & Hrun1 & Hdll1 & Hfr1 & Hfl1 & Hc1 & _).
    destruct (claim_dll st1 l d nvs (brk st) (Some w) [] Hdll1)
      as (st2 & Hrun2 & Hdll2 & Hgone & Hfr2 & Hfl2 & Hc2 & _).
    rewrite app_nil_r in Hdll2.
    exists st2. rewrite (bind_eq _ _ _ _ _ Hrun1). split; [exact Hrun2|].
    destruct (dll_same_store st st2 l d nvs (brk st)) as [Hn Hl]; try done.
    + intros m Hm. rewrite Hfr2.
      * by apply Hfr1.
      * rewrite fmap_app. cbn. intros [Hin|Hin]%elem_of_app; apply Hm.
        -- by right.
        -- apply list_elem_of_singleton in Hin as ->. left.
    + intros l' Hl'. rewrite Hfl2 by done. by apply Hfl1.
    + split_and!; try done. congruence.
Qed.

Lemma X12_witness :
  exists st',
    (let* n := ares__llist_insert_first (Some 1%positive) (Some 9%positive) in
     ares__llist_node_claim n) (st_123 None) = Some (Some 9%positive, st')
    /\ nodes st' = nodes (st_123 None) /\ lists st' = lists (st_123 None).
Proof.
  destruct (X12_insert_then_claim_restores (st_123 None) 1 None
              [(2%positive, val 1); (3%positive, val 2); (4%positive, val 3)]
              9 (repeat true 3))
    as ((st' & Hrun & Hn & Hl & _) & _).
  - solve_dll.
  - solve_heap_ok.
  - vm_compute. reflexivity.
  - vm_compute. reflexivity.
  - exists st'. exact (conj Hrun (conj Hn Hl)).
Defined.

(** X13.  On a well-linked list, [claim] of a node holding a non-null
    value followed by [insert_last] of the value claimed, when the
    allocator grants the node: the value moves to the end (a new node,
    the other nodes keeping their order), [len] is as before, [last_val]
    is the value, and no destructor is called. *)
Theorem X13_claim_then_insert_last st l d xs n w ys o :
  dll st l d (xs ++ (n, Some w) :: ys) -> heap_ok st -> oracle st = true :: o ->
  exists st',
    (let* v := ares__llist_node_claim (Some n) in
     ares__llist_insert_last (Some l) v) st = Some (Some (brk st), st')
    /\ dll st' l d ((xs ++ ys) ++ [(brk st, Some w)])
    /\ ares__llist_len (Some l) st'
       = Some (Z.of_nat (length (xs ++ (n, Some w) :: ys)), st')
    /\ ares__llist_last_val (Some l) st' = Some (Some w, st')
    /\ calls st' = calls st.
Proof.
  intros Hdll Hok Ho.
  destruct (claim_dll _ _ _ _ _ _ _ Hdll)
    as (st1 & Hrun1 & Hdll1 & Hgone & Hfr1 & Hfl1 & Hc1 & Hb1 & Ho1).
  assert (Hlt : Z.of_nat (length (xs ++ ys)) < SIZE_MAX).
  { destruct Hdll as (_ & _ & _ & Hsz). revert Hsz. rewrite !length_app. simpl. lia. }
  assert (Hfresh : nodes st1 !! brk st1 = None).
  { rewrite Hb1. destruct (decide (brk st = n)) as [->|Hne]; [done|].
    destruct (nodes st1 !! brk st) as [N|] eqn:E; [|done].
    destruct (decide (brk st ∈ (xs ++ (n, Some w) :: ys).*1)) as [Hin|Hin].
    - pose proof (dll_live_lt _ _ _ _ _ Hok Hdll Hin). lia.
    - rewrite Hfr1, (heap_ok_fresh _ Hok) in E by done. done. }
  destruct (insert_last_dll st1 l d (xs ++ ys) w o Hdll1 ltac:(congruence) Hfresh Hlt)
    as (st2 & Hrun2 & Hdll2 & _ & _ & Hc2 & _).
  rewrite Hb1 in Hrun2, Hdll2.
  exists st2. rewrite (bind_eq _ _ _ _ _ Hrun1). split; [exact Hrun2|].
  split; [exact Hdll2|]. pose proof Hdll2 as (HL2 & _).
  destruct (first_last_val_dll _ _ _ _ Hdll2) as [_ Hlast].
  rewrite Hlast, last_snoc. split_and!; try done; [|congruence].
  unfold ares__llist_len, list_rd. cbn [is_null]. rewrite HL2. cbn [l_cnt].
  do 2 f_equal. rewrite !length_app. simpl. lia.
Qed.

Lemma X13_witness :
  exists st',
    (let* v := ares__llist_node_claim (Some 2%positive) in
     ares__llist_insert_last (Some 1%positive) v) (st_123 None)
    = Some (Some 5%positive, st')
    /\ ares__llist_len (Some 1%positive) st' = Some (3, st')
    /\ ares__llist_last_val (Some 1%positive) st' = Some (val 1, st').
Proof.
  destruct (X13_claim_then_insert_last (st_123 None) 1 None
              [] 2 1 [(3%positive, val 2); (4%positive, val 3)] (repeat true 3))
    as (st' & Hrun & _ & Hlen & Hlast & _).
  - solve_dll.
  - solve_heap_ok.
  - vm_compute. reflexivity.
  - exists st'. exact (conj Hrun (conj Hlen Hlast)).
Defined.

(** ** What insertion and [claim] never do *)

Section Calls.
Variable c : list (loc * ptr).

Lemma hoare_calls_ret {A} (a : A) :
  hoare (fun s => calls s = c) (ret a) (fun _ s => calls s = c).
Proof. by intros st a' st' HP [= _ <-]. Qed.

Lemma hoare_calls_node_rd {A} p (f : ares__llist_node -> A) :
  hoare (fun s => calls s = c) (node_rd p f) (fun _ s => calls s = c).
Proof.
  intros st a st' HP. unfold node_rd.
  destruct p as [q|]; [|done]. destruct (nodes st !! q); [|done]. by intros [= _ <-].
Qed.

Lemma hoare_calls_list_rd {A} p (f : ares__llist -> A) :
  hoare (fun s => calls s = c) (list_rd p f) (fun _ s => calls s = c).
Proof.
  intros st a st' HP. unfold list_rd.
  destruct p as [q|]; [|done]. destruct (lists st !! q); [|done]. by intros [= _ <-].
Qed.

Lemma hoare_calls_node_wr p upd :
  hoare (fun s => calls s = c) (node_wr p upd) (fun _ s => calls s = c).
Proof.
  intros st a st' HP. unfold node_wr.
  destruct p as [q|]; [|done]. destruct (nodes st !! q); [|done]. by intros [= _ <-].
Qed.

Lemma hoare_calls_list_wr p upd :
  hoare (fun s => calls s = c) (list_wr p upd) (fun _ s => calls s = c).
Proof.
  intros st a st' HP. unfold list_wr.
  destruct p as [q|]; [|done]. destruct (lists st !! q); [|done]. by intros [= _ <-].
Qed.

Lemma hoare_calls_malloc :
  hoare (fun s => calls s = c) ares_malloc (fun _ s => calls s = c).
Proof.
  intros st a st' HP. unfold ares_malloc.
  destruct (oracle st) as [|[] o]; by intros [= _ <-].
Qed.

Lemma hoare_calls_memset_node p :
  hoare (fun s => calls s = c) (memset_node p) (fun _ s => calls s = c).
Proof.
  intros st a st' HP. unfold memset_node. destruct p; [|done]. by intros [= _ <-].
Qed.

Lemma hoare_calls_free_node p :
  hoare (fun s => calls s = c) (ares_free_node p) (fun _ s => calls s = c).
Proof.
  intros st a st' HP. unfold ares_free_node. destruct p as [q|].
  - destruct (nodes st !! q); [|done]. by intros [= _ <-].
  - by intros [= _ <-].
Qed.
End Calls.

Ltac calls_step :=
  first
    [ apply hoare_calls_ret
    | apply hoare_calls_node_rd
    | apply hoare_calls_list_rd
    | apply hoare_calls_node_wr
    | apply hoare_calls_list_wr
    | apply hoare_calls_malloc
    | apply hoare_calls_memset_node
    | apply hoare_calls_free_node
    | apply hoare_bind_inv; [|intros ?]
    | match goal with
      | |- hoare _ (if ?b then _ else _) _ => destruct b
      | |- hoare _ (match ?t with _ => _ end) _ => destruct t
      end ].

Lemma insert_at_calls c list type at_ v :
  hoare (fun s => calls s = c) (ares__llist_insert_at list type at_ v)
        (fun _ s => calls s = c).
Proof. unfold ares__llist_insert_at. repeat calls_step. Qed.

Lemma run_insert_calls c op v :
  hoare (fun s => calls s = c) (run_insert op v) (fun _ s => calls s = c).
Proof.
  destruct op; cbn [run_insert];
    unfold ares__llist_insert_first, ares__llist_insert_last,
      ares__llist_insert_before, ares__llist_insert_after;
    repeat first [apply insert_at_calls | calls_step].
Qed.

Lemma claim_calls c node :
  hoare (fun s => calls s = c) (ares__llist_node_claim node)
        (fun _ s => calls s = c).
Proof. unfold ares__llist_node_claim. repeat calls_step. Qed.

Lemma hoare_holds_node_wr_other m w p upd :
  p <> Some m -> hoare (holds m w) (node_wr p upd) (fun _ => holds m w).
Proof.
  intros Hne st a st' HP. unfold node_wr.
  destruct p as [q|]; [|done]. destruct (nodes st !! q) as [N|]; [|done].
  intros [= _ <-]. unfold holds in *. cbn.
  rewrite lookup_insert_ne; [done|]. congruence.
Qed.

Lemma insert_at_keeps_values list type at_ v st r st' m w :
  nodes st !! brk st = None -> holds m w st ->
  ares__llist_insert_at list type at_ v st = Some (r, st') ->
  holds m w st'.
Proof.
  intros Hb Hm. assert (Hne : m <> brk st).
  { intros ->. unfold holds in Hm. by rewrite Hb in Hm. }
  unfold ares__llist_insert_at.
  destruct (is_null list || is_null v); [by intros [= _ <-]|].
  unfold bind at 1, ares_malloc.
  destruct (oracle st) as [|[] o]; cbn [is_null];
    [by intros [= _ <-]| |intros [= _ <-]; exact Hm].
  unfold bind at 1, memset_node. intros Hrun.
  match type of Hrun with
  | ?prog ?s = _ =>
      assert (Hh : hoare (holds m w) prog (fun _ => holds m w))
  end.
  { apply hoare_bind_inv; [by apply hoare_holds_node_wr_other; congruence|intros ?].
    repeat hoare_step. }
  eapply Hh; [|exact Hrun]. unfold holds in *. cbn.
  by rewrite lookup_insert_ne.
Qed.

Lemma run_insert_keeps_values op v st r st' m w :
  nodes st !! brk st = None -> holds m w st ->
  run_insert op v st = Some (r, st') -> holds m w st'.
Proof.
  intros Hb Hm.
  destruct op as [list|list|node|node]; cbn [run_insert].
  - by apply insert_at_keeps_values.
  - by apply insert_at_keeps_values.
  - unfold ares__llist_insert_before. destruct node as [a|]; [|by intros [= _ <-]].
    cbn [is_null]. unfold bind, node_rd.
    destruct (nodes st !! a); [|done]. by apply insert_at_keeps_values.
  - unfold ares__llist_insert_after. destruct node as [a|]; [|by intros [= _ <-]].
    cbn [is_null]. unfold bind at 1, node_rd at 1.
    destruct (nodes st !! a) as [N|] eqn:HN; [|done].
    destruct (is_null (n_next N)); unfold bind, node_rd; rewrite ?HN; cbn;
      rewrite ?HN; by apply insert_at_keeps_values.
Qed.

Lemma run_insert_null_value op st r st' :
  run_insert op None st = Some (r, st') -> r = None /\ st' = st.
Proof.
  assert (Hat : forall list type at_ r st',
            ares__llist_insert_at list type at_ None st = Some (r, st') ->
            r = None /\ st' = st).
  { intros list type at_ r0 st0. unfold ares__llist_insert_at.
    rewrite orb_true_r. by intros [= <- <-]. }
  destruct op as [list|list|node|node]; cbn [run_insert].
  - apply Hat.
  - apply Hat.
  - unfold ares__llist_insert_before. destruct node as [a|]; [|by intros [= <- <-]].
    cbn [is_null]. unfold bind, node_rd.
    destruct (nodes st !! a); [|done]. apply Hat.
  - unfold ares__llist_insert_after. destruct node as [a|]; [|by intros [= <- <-]].
    cbn [is_null]. unfold bind at 1, node_rd at 1.
    destruct (nodes st !! a) as [N|] eqn:HN; [|done].
    destruct (is_null (n_next N)); unfold bind, node_rd; rewrite ?HN; cbn;
      rewrite ?HN; apply Hat.
Qed.

(** X14.  In every state, an insertion (of the four) that returns a node
    was given a non-null value and [node_val] of the returned node is that
    value; an insertion given a null value returns null and changes
    nothing. *)
Theorem X14_insertion_stores_its_value op v st :
  (forall n st', run_insert op v st = Some (Some n, st') ->
                 v <> None /\ ares__llist_node_val (Some n) st' = Some (v, st'))
  /\ (forall r st', run_insert op None st = Some (r, st') -> r = None /\ st' = st).
Proof.
  split.
  - intros n st'. apply run_insert_stores_value.
  - intros r st'. apply run_insert_null_value.
Qed.

Lemma X14_witness :
  val 9 <> None
  /\ ares__llist_node_val (Some 5%positive)
       (final_state (ares__llist_insert_after (Some 3%positive) (val 9)) (st_123 None))
     = Some (val 9,
             final_state (ares__llist_insert_after (Some 3%positive) (val 9))
                         (st_123 None)).
Proof.
  apply (proj1 (X14_insertion_stores_its_value (Insert_after (Some 3%positive))
                  (val 9) (st_123 None)) 5%positive).
  vm_compute. reflexivity.
Defined.

(** X15.  In every state, an insertion (of the four) or a [claim] that
    returns has called no destructor; and an insertion, the allocator's
    next address being unused, leaves the value of every existing node as
    it was. *)
Theorem X15_insert_and_claim_call_no_destructor st :
  (forall op v r st', run_insert op v st = Some (r, st') -> calls st' = calls st)
  /\ (forall node v st',
        ares__llist_node_claim node st = Some (v, st') -> calls st' = calls st)
  /\ (forall op v r st' m w,
        nodes st !! brk st = None ->
        ares__llist_node_val (Some m) st = Some (w, st) ->
        run_insert op v st = Some (r, st') ->
        ares__llist_node_val (Some m) st' = Some (w, st')).
Proof.
  split_and!.
  - intros op v r st' Hrun. by apply (run_insert_calls (calls st) op v st r st').
  - intros node v st' Hrun.
    by apply (claim_calls (calls st) node st v st').
  - intros op v r st' m w Hb Hm Hrun.
    unfold ares__llist_node_val, node_rd in *. cbn [is_null] in *.
    assert (Hh : holds m w st).
    { unfold holds. destruct (nodes st !! m); [|done]. cbn. congruence. }
    pose proof (run_insert_keeps_values _ _ _ _ _ _ _ Hb Hh Hrun) as Hh'.
    unfold holds in Hh'. destruct (nodes st' !! m); [|done].
    cbn in Hh'. congruence.
Qed.

Lemma X15_witness :
  calls (final_state (ares__llist_insert_before (Some 3%positive) (val 9))
                     (st_123 (Some 7%positive)))
  = calls (st_123 (Some 7%positive))
  /\ ares__llist_node_val (Some 3%positive)
       (final_state (ares__llist_insert_before (Some 3%positive) (val 9))
                    (st_123 (Some 7%positive)))
     = Some (val 2, final_state (ares__llist_insert_before (Some 3%positive) (val 9))
                                (st_123 (Some 7%positive))).
Proof.
  destruct (X15_insert_and_claim_call_no_destructor (st_123 (Some 7%positive)))
    as (Hc & _ & Hv).
  split.
  - apply (Hc (Insert_before (Some 3%positive)) (val 9) (Some 5%positive)).
    vm_compute. reflexivity.
  - apply (Hv (Insert_before (Some 3%positive)) (val 9) (Some 5%positive));
      vm_compute; reflexivity.
Defined.

Lemma first_or_head (nvs : list (loc * ptr)) : first_or nvs None = fst <$> head nvs.
Proof. by destruct nvs as [|[] ?]. Qed.

Lemma last_or_last (nvs : list (loc * ptr)) : last_or nvs None = fst <$> last nvs.
Proof. unfold last_or. by destruct (last nvs) as [[]|]. Qed.

(** The ends of a well-linked list, as the accessors show them. *)
Lemma dll_ends st l d nvs :
  dll st l d nvs ->
  ares__llist_node_first (Some l) st = Some (fst <$> head nvs, st)
  /\ ares__llist_node_last (Some l) st = Some (fst <$> last nvs, st)
  /\ ares__llist_len (Some l) st = Some (Z.of_nat (length nvs), st)
  /\ ares__llist_node_prev (fst <$> head nvs) st = Some (None, st)
  /\ ares__llist_node_next (fst <$> last nvs) st = Some (None, st).
Proof.
  intros Hdll. pose proof Hdll as (HL & Hch & _).
  unfold ares__llist_node_first, ares__llist_node_last, ares__llist_len, list_rd.
  cbn [is_null]. rewrite HL. cbn [l_head l_tail l_cnt].
  rewrite first_or_head, last_or_last. split_and!; try done.
  - destruct nvs as [|[n v] r]; [done|]. destruct Hch as [Hn _]. cbn.
    unfold ares__llist_node_prev, node_rd. cbn [is_null]. by rewrite Hn.
  - destruct nvs as [|[n v] r _] using rev_ind; [done|].
    apply chain_app in Hch as [_ [Hn _]]. rewrite last_snoc. cbn.
    unfold ares__llist_node_next, node_rd. cbn [is_null]. by rewrite Hn.
Qed.

(** X16.  [destroy(n)] on a node of a well-linked list unlinks it as
    [claim] does: the list is well-linked on the other nodes in their
    order, [len] is one less, the node is freed, and [node_first] and
    [node_last] are the first and last of the nodes that remain (the old
    second node after the head was destroyed, the old last but one after
    the tail was). *)
Theorem X16_destroy_node_unlinks st l d xs n v ys :
  dll st l d (xs ++ (n, v) :: ys) ->
  exists st',
    ares__llist_node_destroy (Some n) st = Some (tt, st')
    /\ dll st' l d (xs ++ ys)
    /\ nodes st' !! n = None
    /\ ares__llist_len (Some l) st'
       = Some (Z.of_nat (length (xs ++ (n, v) :: ys)) - 1, st')
    /\ ares__llist_node_first (Some l) st' = Some (fst <$> head (xs ++ ys), st')
    /\ ares__llist_node_last (Some l) st' = Some (fst <$> last (xs ++ ys), st')
    /\ (forall m, m ∉ (xs ++ (n, v) :: ys).*1 -> nodes st' !! m = nodes st !! m).
Proof.
  intros Hdll.
  destruct (node_destroy_dll _ _ _ _ _ _ _ Hdll)
    as (st' & Hrun & Hdll' & Hgone & Hfr & _).
  destruct (dll_ends _ _ _ _ Hdll') as (Hf & Hl & Hlen & _).
  exists st'. rewrite Hf, Hl, Hlen. split_and!; try done.
  do 2 f_equal. rewrite !length_app. simpl. lia.
Qed.

Lemma X16_witness :
  exists st',
    ares__llist_node_destroy (Some 2%positive) (st_123 (Some 7%positive))
    = Some (tt, st')
    /\ ares__llist_node_first (Some 1%positive) st' = Some (Some 3%positive, st')
    /\ ares__llist_len (Some 1%positive) st' = Some (2, st').
Proof.
  destruct (X16_destroy_node_unlinks (st_123 (Some 7%positive)) 1 (Some 7%positive)
              [] 2 (val 1) [(3%positive, val 2); (4%positive, val 3)])
    as (st' & Hrun & _ & _ & Hlen & Hf & _).
  - solve_dll.
  - exists st'. exact (conj Hrun (conj Hf Hlen)).
Defined.

(** X17.  Any sequence of calls on a well-linked list (insertions at the
    two ends, directly or relative to the first and last node, with any
    value and any answer of the allocator; [claim], [destroy] and
    [replace] of the node at any position, in range or not;
    [replace_destructor]) is defined and does what the same calls do to a
    plain list of values: afterwards the walk from the head reads the
    model's values, [len] is their number and the number of nodes
    reachable from the head, the destructor calls made are the model's,
    the list is well-linked, and other lists are left alone. *)
Theorem X17_calls_refine_list_model st l d nvs cs :
  dll st l d nvs -> heap_ok st ->
  Z.of_nat (length nvs + length cs) <= SIZE_MAX ->
  exists st',
    run_calls (Some l) cs st = Some (tt, st')
    /\ list_values (Some l) st'
       = Some (m_vals (foldl model_call (model_of st d nvs) cs), st')
    /\ ares__llist_len (Some l) st'
       = Some (Z.of_nat (length (m_vals (foldl model_call (model_of st d nvs) cs))),
               st')
    /\ ares__llist_len (Some l) st' = Some (Z.of_nat (length (reachable st' l)), st')
    /\ calls st' = m_calls (foldl model_call (model_of st d nvs) cs)
    /\ oracle st' = m_oracle (foldl model_call (model_of st d nvs) cs)
    /\ (exists nvs',
          dll st' l (m_destruct (foldl model_call (model_of st d nvs) cs)) nvs')
    /\ heap_ok st' /\ others_kept l st st'.
Proof.
  intros Hdll Hok Hlen.
  destruct (run_calls_dll l cs st d nvs Hdll Hok Hlen)
    as (st' & nvs' & Hrun & Hdll' & Hok' & Hm & Hoth).
  exists st'. rewrite <- Hm. cbn [m_vals m_calls m_oracle m_destruct model_of].
  rewrite <- Hm in Hdll'. cbn [m_destruct model_of] in Hdll'.
  destruct (walk_len_dll st' l _ nvs' Hdll') as (Hv & Hl & Hr).
  split; [exact Hrun|]. split; [exact Hv|].
  split; [by rewrite Hl, length_fmap|]. split; [exact Hr|].
  split_and!; try done. by exists nvs'.
Qed.

Lemma X17_witness :
  exists st',
    run_calls (Some 1%positive)
      [Call_insert_first (val 9); Call_claim 1; Call_destroy 0;
       Call_replace 0 (val 8); Call_insert_after_last (val 5)]
      (st_123 (Some 7%positive)) = Some (tt, st')
    /\ list_values (Some 1%positive) st' = Some ([val 8; val 3; val 5], st')
    /\ calls st' = [(7%positive, val 9); (7%positive, val 2)].
Proof.
  destruct (X17_calls_refine_list_model (st_123 (Some 7%positive)) 1 (Some 7%positive)
              [(2%positive, val 1); (3%positive, val 2); (4%positive, val 3)]
              [Call_insert_first (val 9); Call_claim 1; Call_destroy 0;
               Call_replace 0 (val 8); Call_insert_after_last (val 5)])
    as (st' & Hrun & Hv & _ & _ & Hc & _).
  - solve_dll.
  - solve_heap_ok.
  - vm_compute. discriminate.
  - exists st'. exact (conj Hrun (conj Hv Hc)).
Defined.

(** X18.  After any such sequence of calls on a well-linked list:
    [node_first] is null exactly when [node_last] is null, and exactly
    when [len] is 0; the first node has no previous node and the last
    node no next node. *)
Theorem X18_calls_keep_boundary_invariants st l d nvs cs :
  dll st l d nvs -> heap_ok st ->
  Z.of_nat (length nvs + length cs) <= SIZE_MAX ->
  exists st' first last c,
    run_calls (Some l) cs st = Some (tt, st')
    /\ ares__llist_node_first (Some l) st' = Some (first, st')
    /\ ares__llist_node_last (Some l) st' = Some (last, st')
    /\ ares__llist_len (Some l) st' = Some (c, st')
    /\ (first = None <-> last = None)
    /\ (first = None <-> c = 0)
    /\ 0 <= c <= SIZE_MAX
    /\ ares__llist_node_prev first st' = Some (None, st')
    /\ ares__llist_node_next last st' = Some (None, st').
Proof.
  intros Hdll Hok Hlen.
  destruct (run_calls_dll l cs st d nvs Hdll Hok Hlen)
    as (st' & nvs' & Hrun & Hdll' & _).
  destruct (dll_ends _ _ _ _ Hdll') as (Hf & Hl & Hc & Hp & Hn).
  destruct Hdll' as (_ & _ & _ & Hsz).
  exists st', (fst <$> head nvs'), (fst <$> last nvs'), (Z.of_nat (length nvs')).
  split_and!; try done; try lia.
  - destruct nvs' as [|x r _] using rev_ind; [done|].
    rewrite last_snoc. by destruct r.
  - destruct nvs' as [|x r]; [done|]. cbn. split; [done|lia].
Qed.

Lemma X18_witness :
  exists st' first last c,
    run_calls (Some 1%positive) [Call_destroy 0; Call_claim 1; Call_claim 0]
              (st_123 (Some 7%positive)) = Some (tt, st')
    /\ ares__llist_node_first (Some 1%positive) st' = Some (first, st')
    /\ ares__llist_node_last (Some 1%positive) st' = Some (last, st')
    /\ ares__llist_len (Some 1%positive) st' = Some (c, st')
    /\ (first = None <-> last = None)
    /\ (first = None <-> c = 0).
Proof.
  destruct (X18_calls_keep_boundary_invariants (st_123 (Some 7%positive)) 1
              (Some 7%positive)
              [(2%positive, val 1); (3%positive, val 2); (4%positive, val 3)]
              [Call_destroy 0; Call_claim 1; Call_claim 0])
    as (st' & f & t & c & Hrun & Hf & Hl & Hc & H1 & H2 & _).
  - solve_dll.
  - solve_heap_ok.
  - vm_compute. discriminate.
  - exists st', f, t, c. exact (conj Hrun (conj Hf (conj Hl (conj Hc (conj H1 H2))))).
Defined.

(** X19.  [destroy(list)] on a well-linked list leaves every other
    well-linked list of the heap as it was: same nodes, same values, same
    order, same count, same destructor. *)
Theorem X19_destroy_list_keeps_other_lists st l d nvs :
  dll st l d nvs ->
  exists st',
    ares__llist_destroy (Some l) st = Some (tt, st')
    /\ others_kept l st st'.
Proof.
  intros Hdll.
  destruct (destroy_dll _ _ _ _ Hdll) as (st' & Hrun & _ & _ & Hfr & Hfl & _).
  exists st'. split; [exact Hrun|]. intros l2 d2 nvs2 Hne H2.
  eapply (dll_other st st' l d nvs nvs.*1); try done. intros m Hm. by left.
Qed.

Lemma X19_witness :
  exists st',
    ares__llist_destroy (Some 1%positive) st_two_lists = Some (tt, st')
    /\ dll st' 4 (Some 7%positive) [(5%positive, val 5)].
Proof.
  destruct (X19_destroy_list_keeps_other_lists st_two_lists 1 None
              [(2%positive, val 1); (3%positive, val 2)])
    as (st' & Hrun & Hoth).
  - solve_dll.
  - exists st'. split; [exact Hrun|]. apply Hoth; [discriminate|solve_dll].
Defined.

(** X20.  [claim] of a node [n] holding [v], linked in a well-linked list
    between the nodes [xs] and [ys]: the call returns [v]; the list is
    well-linked again with nodes [xs ++ ys] (so the neighbours' [next] and
    [prev], and [head]/[tail] when [n] was first or last, are patched);
    the count is one less; [n] is no longer allocated; every node outside
    the list is untouched and no destructor is called. *)
Theorem X20_claim_unlinks_in_well_linked_list st l d xs n v ys :
  dll st l d (xs ++ (n, v) :: ys) ->
  exists st',
    ares__llist_node_claim (Some n) st = Some (v, st')
    /\ dll st' l d (xs ++ ys)
    /\ ares__llist_len (Some l) st'
       = Some (Z.of_nat (length (xs ++ (n, v) :: ys)) - 1, st')
    /\ nodes st' !! n = None
    /\ (forall m, m ∉ (xs ++ (n, v) :: ys).*1 -> nodes st' !! m = nodes st !! m)
    /\ calls st' = calls st.
Proof.
  intros Hdll.
  destruct (claim_dll _ _ _ _ _ _ _ Hdll)
    as (st' & Hclaim & Hdll' & Hgone & Hfr & _ & Hcalls & _).
  exists st'.
  refine (conj Hclaim (conj Hdll' (conj _ (conj Hgone (conj Hfr Hcalls))))).
  destruct Hdll' as (HL & _). unfold ares__llist_len, list_rd. cbn [is_null].
  rewrite HL. cbn [l_cnt]. do 2 f_equal. rewrite !length_app. simpl. lia.
Qed.

Lemma X20_witness :
  exists st',
    ares__llist_node_claim (Some 3%positive) (st_123 (Some 7%positive))
    = Some (val 2, st')
    /\ dll st' 1 (Some 7%positive) ([(2%positive, val 1)] ++ [(4%positive, val 3)])
    /\ ares__llist_len (Some 1%positive) st'
       = Some (Z.of_nat (length ([(2%positive, val 1)]
                                   ++ (3%positive, val 2) :: [(4%positive, val 3)])) - 1,
               st')
    /\ nodes st' !! 3%positive = None
    /\ (forall m, m ∉ ([(2%positive, val 1)]
                        ++ (3%positive, val 2) :: [(4%positive, val 3)]).*1 ->
                  nodes st' !! m = nodes (st_123 (Some 7%positive)) !! m)
    /\ calls st' = calls (st_123 (Some 7%positive)).
Proof.
  apply (X20_claim_unlinks_in_well_linked_list (st_123 (Some 7%positive)) 1
           (Some 7%positive) [(2%positive, val 1)] 3 (val 2) [(4%positive, val 3)]).
  solve_dll.
Defined.
